(** * Hybrid movie recommender: latent-factor model and ranking pipeline

    A shallow embedding of [backend/svd_model.py] and
    [backend/routers/recommendations_router.py], with the properties of the
    engine stated and proved over it.

    Conventions of the embedding.
    - A Python/NumPy float is an [npfloat]: an exact rational or NaN.
      Rounding error, infinities and overflow are not modelled.
    - A Python exception is a value of [exn]; fallible code returns a
      [result].  Methods that mutate [self] live in the state-and-exception
      monad [Method], which keeps the state reached when an exception
      escapes.
    - A [dict] is a [gmap], a NumPy array is a [list] read with [!!] and
      written with [<[ _ := _ ]>], with the out-of-range cases raising as
      Python does. *)

From Stdlib Require Import QArith Qround Lia Lqa.
From stdpp Require Import gmap strings list fin_maps sorting.

Set Default Proof Using "Type".

(* ===================================================================== *)
(** * Floats *)
(* ===================================================================== *)

Inductive npfloat : Type :=
  | Fin (q : Q)
  | NaN.

(** Arithmetic keeps the rationals in lowest terms, so that equal floats
    are equal terms. *)
Definition lift2 (f : Q → Q → Q) (a b : npfloat) : npfloat :=
  match a, b with
  | Fin x, Fin y => Fin (Qred (f x y))
  | _, _ => NaN
  end.

Definition fadd : npfloat → npfloat → npfloat := lift2 Qplus.
Definition fsub : npfloat → npfloat → npfloat := lift2 Qminus.
Definition fmul : npfloat → npfloat → npfloat := lift2 Qmult.
(** Division by a non-zero float (the callers guard the divisor). *)
Definition fdiv : npfloat → npfloat → npfloat := lift2 Qdiv.

Arguments lift2 : simpl never.
Arguments fadd : simpl never.
Arguments fsub : simpl never.
Arguments fmul : simpl never.
Arguments fdiv : simpl never.

Declare Scope npfloat_scope.
Delimit Scope npfloat_scope with F.
Bind Scope npfloat_scope with npfloat.
Infix "+" := fadd : npfloat_scope.
Infix "-" := fsub : npfloat_scope.
Infix "*" := fmul : npfloat_scope.

Definition is_finite (a : npfloat) : Prop :=
  match a with Fin _ => True | NaN => False end.

(** [a < b] on floats: every comparison with NaN is false. *)
Definition flt (a b : npfloat) : bool :=
  match a, b with
  | Fin x, Fin y => negb (Qle_bool y x)
  | _, _ => false
  end.

(** [np.clip(x, lo, hi)], that is [minimum(maximum(x, lo), hi)]; NaN
    propagates. *)
Definition np_clip (x : npfloat) (lo hi : Q) : npfloat :=
  match x with
  | Fin q => Fin (if Qle_bool q lo then lo else if Qle_bool hi q then hi else q)
  | NaN => NaN
  end.

Definition np_sum (l : list npfloat) : npfloat := foldl fadd (Fin 0) l.

(** [np.mean]: the mean of an empty array is NaN (NumPy warns and does
    not raise). *)
Definition np_mean (l : list npfloat) : npfloat :=
  match l with
  | [] => NaN
  | _ => fdiv (np_sum l) (Fin (inject_Z (Z.of_nat (length l))))
  end.

Definition np_zeros (n : nat) : list npfloat := replicate n (Fin 0).

(** Python's [round(x, 2)]: round half to even on the second decimal. *)
Definition round_half_even (q : Q) : Z :=
  let f := Qfloor q in
  let r := (q - inject_Z f)%Q in
  match Qcompare r (1 # 2) with
  | Lt => f
  | Gt => (f + 1)%Z
  | Eq => if Z.even f then f else (f + 1)%Z
  end.

Definition round2 (x : npfloat) : npfloat :=
  match x with
  | Fin q => Fin (Qred (inject_Z (round_half_even (q * 100)) / 100))
  | NaN => NaN
  end.

(* ===================================================================== *)
(** * Exceptions *)
(* ===================================================================== *)

Inductive exn : Type :=
  | TypeError
  | KeyError
  | IndexError
  | ValueError
  | ZeroDivisionError
  | HTTPException (status_code : Z) (detail : string).

Inductive result (A : Type) : Type :=
  | Ok (a : A)
  | Raise (e : exn).
Arguments Ok {A} a.
Arguments Raise {A} e.

#[global] Instance result_ret : MRet result := λ A a, Ok a.
#[global] Instance result_bind : MBind result := λ A B f r,
  match r with
  | Ok a => f a
  | Raise e => Raise e
  end.

#[global] Instance result_fmap : FMap result := λ A B f r,
  match r with
  | Ok a => Ok (f a)
  | Raise e => Raise e
  end.

(** [o] or raise [e]. *)
Definition or_raise {A} (e : exn) (o : option A) : result A :=
  match o with
  | Some a => Ok a
  | None => Raise e
  end.

(** [d[k]] on a dict. *)
Definition dict_getitem {V} (d : gmap Z V) (k : Z) : result V :=
  or_raise KeyError (d !! k).

(** [k in d]. *)
Definition dict_contains {V} (d : gmap Z V) (k : Z) : bool :=
  bool_decide (is_Some (d !! k)).

(** [a[i]] on an array with a non-negative index. *)
Definition getitem {A} (a : list A) (i : nat) : result A :=
  or_raise IndexError (a !! i).

(** [a[i]] on an attribute that may still be [None]. *)
Definition attr_getitem {A} (a : option (list A)) (i : nat) : result A :=
  match a with
  | None => Raise TypeError
  | Some l => getitem l i
  end.

(** [np.dot] of two vectors; shapes that do not align raise. *)
Definition np_dot (x y : list npfloat) : result npfloat :=
  if bool_decide (length x = length y)
  then Ok (np_sum (zip_with fmul x y))
  else Raise ValueError.

(** Elementwise vector arithmetic on rows of equal length. *)
Definition vscale (c : npfloat) (x : list npfloat) : list npfloat :=
  (λ a, c * a)%F <$> x.
Definition vadd (x y : list npfloat) : list npfloat := zip_with fadd x y.
Definition vsub (x y : list npfloat) : list npfloat := zip_with fsub x y.

(* ===================================================================== *)
(** * [svd_model.py]: class [SVDModel] *)
(* ===================================================================== *)

Record SVDModel : Type := mkSVDModel {
  n_factors : nat;
  n_epochs : nat;
  lr : Q;
  reg : Q;
  global_mean : npfloat;
  user_bias : option (list npfloat);
  item_bias : option (list npfloat);
  user_factors : option (list (list npfloat));
  item_factors : option (list (list npfloat));
  user_map : gmap Z nat;
  item_map : gmap Z nat;
}.

(** [SVDModel.__init__]. *)
Definition __init__ (n_factors n_epochs : nat) (lr reg : Q) : SVDModel :=
  {| n_factors := n_factors; n_epochs := n_epochs; lr := lr; reg := reg;
     global_mean := Fin 0;
     user_bias := None; item_bias := None;
     user_factors := None; item_factors := None;
     user_map := ∅; item_map := ∅ |}.

(** The constructor's defaults: [SVDModel()]. *)
Definition SVDModel_default : SVDModel := __init__ 50 20 (5 # 1000) (2 # 100).

(** [SVDModel.predict]. *)
Definition predict (self : SVDModel) (user_id item_id : Z) : result npfloat :=
  if negb (dict_contains (user_map self) user_id)
     || negb (dict_contains (item_map self) item_id)
  then Ok (global_mean self)
  else
    u ← dict_getitem (user_map self) user_id;
    i ← dict_getitem (item_map self) item_id;
    bu ← attr_getitem (user_bias self) u;
    bi ← attr_getitem (item_bias self) i;
    pu ← attr_getitem (user_factors self) u;
    qi ← attr_getitem (item_factors self) i;
    d ← np_dot pu qi;
    Ok (np_clip (global_mean self + bu + bi + d) (1 # 2) 5).

(* --------------------------------------------------------------------- *)
(** ** Methods that mutate [self] *)

(** A method body: it runs on a model and leaves a model behind, also
    when it raises. *)
Definition Method (A : Type) : Type := SVDModel → result A * SVDModel.

Definition ret_ {A} (a : A) : Method A := λ self, (Ok a, self).
Definition raise_ {A} (e : exn) : Method A := λ self, (Raise e, self).
Definition bind_ {A B} (m : Method A) (k : A → Method B) : Method B :=
  λ self,
    match m self with
    | (Ok a, self') => k a self'
    | (Raise e, self') => (Raise e, self')
    end.
(** Run pure fallible code inside a method. *)
Definition lift {A} (r : result A) : Method A := λ self, (r, self).
(** Read an attribute of [self]. *)
Definition attr {A} (f : SVDModel → A) : Method A := λ self, (Ok (f self), self).
(** Overwrite [self]. *)
Definition modify (f : SVDModel → SVDModel) : Method unit :=
  λ self, (Ok tt, f self).

#[global] Instance Method_ret : MRet Method := @ret_.
#[global] Instance Method_bind : MBind Method := λ A B k m, bind_ m k.

Definition with_user_map (v : gmap Z nat) (s : SVDModel) : SVDModel :=
  mkSVDModel (n_factors s) (n_epochs s) (lr s) (reg s) (global_mean s)
    (user_bias s) (item_bias s) (user_factors s) (item_factors s)
    v (item_map s).
Definition with_item_map (v : gmap Z nat) (s : SVDModel) : SVDModel :=
  mkSVDModel (n_factors s) (n_epochs s) (lr s) (reg s) (global_mean s)
    (user_bias s) (item_bias s) (user_factors s) (item_factors s)
    (user_map s) v.
Definition with_global_mean (v : npfloat) (s : SVDModel) : SVDModel :=
  mkSVDModel (n_factors s) (n_epochs s) (lr s) (reg s) v
    (user_bias s) (item_bias s) (user_factors s) (item_factors s)
    (user_map s) (item_map s).
Definition with_user_bias (v : option (list npfloat)) (s : SVDModel) : SVDModel :=
  mkSVDModel (n_factors s) (n_epochs s) (lr s) (reg s) (global_mean s)
    v (item_bias s) (user_factors s) (item_factors s)
    (user_map s) (item_map s).
Definition with_item_bias (v : option (list npfloat)) (s : SVDModel) : SVDModel :=
  mkSVDModel (n_factors s) (n_epochs s) (lr s) (reg s) (global_mean s)
    (user_bias s) v (user_factors s) (item_factors s)
    (user_map s) (item_map s).
Definition with_user_factors (v : option (list (list npfloat))) (s : SVDModel)
  : SVDModel :=
  mkSVDModel (n_factors s) (n_epochs s) (lr s) (reg s) (global_mean s)
    (user_bias s) (item_bias s) v (item_factors s)
    (user_map s) (item_map s).
Definition with_item_factors (v : option (list (list npfloat))) (s : SVDModel)
  : SVDModel :=
  mkSVDModel (n_factors s) (n_epochs s) (lr s) (reg s) (global_mean s)
    (user_bias s) (item_bias s) (user_factors s) v
    (user_map s) (item_map s).

(** [self.a[i]]: read entry [i] of an array attribute. *)
Definition load {A} (f : SVDModel → option (list A)) (i : nat) : Method A :=
  λ self, (attr_getitem (f self) i, self).

(** [self.a[i] = v]: write entry [i] of an array attribute in place. *)
Definition store {A} (f : SVDModel → option (list A))
    (upd : option (list A) → SVDModel → SVDModel) (i : nat) (v : A)
  : Method unit :=
  λ self,
    match f self return result unit * SVDModel with
    | None => (Raise TypeError, self)
    | Some l =>
        if bool_decide (i < length l)
        then (Ok tt, upd (Some (<[i := v]> l)) self)
        else (Raise IndexError, self)
    end.

(* --------------------------------------------------------------------- *)
(** ** The random generator

    [np.random.default_rng], [Generator.normal] and [Generator.shuffle]
    belong to NumPy.  The model takes them as an interface: a generator
    state that every draw advances, and the operating system's entropy,
    which [default_rng] reads only when it is given no seed. *)

Class Generator : Type := {
  rng_state : Type;
  os_entropy : Type;
  default_rng : option Z → os_entropy → rng_state;
  (** [rng.normal(loc, scale, (n, f))] *)
  normal : rng_state → Q → Q → nat → nat → list (list npfloat) * rng_state;
  (** [rng.shuffle(a)] *)
  shuffle : rng_state → list nat → list nat * rng_state;
  default_rng_seeded : ∀ seed e1 e2,
    default_rng (Some seed) e1 = default_rng (Some seed) e2;
  normal_shape : ∀ g loc scale n f,
    length (normal g loc scale n f).1 = n
    ∧ Forall (λ row, length row = f ∧ Forall is_finite row)
        (normal g loc scale n f).1;
  shuffle_perm : ∀ g a, (shuffle g a).1 ≡ₚ a;
}.

(* --------------------------------------------------------------------- *)
(** ** [SVDModel.fit] *)

(** [np.unique]: the sorted distinct values. *)
Definition np_unique (a : list Z) : list Z :=
  remove_dups (merge_sort Z.le a).

(** [{x: idx for idx, x in enumerate(xs)}]: later entries overwrite. *)
Definition enumerate_dict (xs : list Z) : gmap Z nat :=
  foldl (λ d p, <[p.2 := p.1]> d) ∅ (zip (seq 0 (length xs)) xs).

(** [np.array([d[x] for x in xs])]. *)
Fixpoint lookup_all (d : gmap Z nat) (xs : list Z) : result (list nat) :=
  match xs with
  | [] => Ok []
  | x :: xs' => i ← dict_getitem d x; rest ← lookup_all d xs'; Ok (i :: rest)
  end.

(** The body of the inner loop of [fit], for the training triple at
    position [idx]; it returns [err ** 2]. *)
Definition sgd_step (u_indices i_indices : list nat) (ratings : list npfloat)
    (idx : nat) : Method npfloat :=
  u ← lift (getitem u_indices idx);
  i ← lift (getitem i_indices idx);
  r ← lift (getitem ratings idx);
  (* pred = global_mean + user_bias[u] + item_bias[i] + dot(...) *)
  mu ← attr global_mean;
  bu ← load user_bias u;
  bi ← load item_bias i;
  pu ← load user_factors u;
  qi ← load item_factors i;
  d ← lift (np_dot pu qi);
  let pred := (mu + bu + bi + d)%F in
  let err := (r - pred)%F in
  lr_ ← attr (λ self, Fin (lr self));
  reg_ ← attr (λ self, Fin (reg self));
  (* self.user_bias[u] += self.lr * (err - self.reg * self.user_bias[u]) *)
  bu ← load user_bias u;
  store user_bias with_user_bias u (bu + lr_ * (err - reg_ * bu))%F;;
  (* self.item_bias[i] += self.lr * (err - self.reg * self.item_bias[i]) *)
  bi ← load item_bias i;
  store item_bias with_item_bias i (bi + lr_ * (err - reg_ * bi))%F;;
  (* uf = self.user_factors[u].copy() *)
  uf ← load user_factors u;
  (* self.user_factors[u] += self.lr * (err * self.item_factors[i]
                                         - self.reg * self.user_factors[u]) *)
  pu ← load user_factors u;
  qi ← load item_factors i;
  store user_factors with_user_factors u
    (vadd pu (vscale lr_ (vsub (vscale err qi) (vscale reg_ pu))));;
  (* self.item_factors[i] += self.lr * (err * uf
                                         - self.reg * self.item_factors[i]) *)
  qi ← load item_factors i;
  store item_factors with_item_factors i
    (vadd qi (vscale lr_ (vsub (vscale err uf) (vscale reg_ qi))));;
  mret (err * err)%F.

(** [for idx in indices: ...], accumulating [total_error]. *)
Fixpoint sgd_pass (u_indices i_indices : list nat) (ratings : list npfloat)
    (indices : list nat) (total_error : npfloat) : Method npfloat :=
  match indices with
  | [] => mret total_error
  | idx :: indices' =>
      e2 ← sgd_step u_indices i_indices ratings idx;
      sgd_pass u_indices i_indices ratings indices' (total_error + e2)%F
  end.

(** [total_error / len(ratings)], the argument of the square root of the
    epoch's RMSE.  [total_error] is still the Python float [0.0] when the
    loop body never ran, which is exactly when [ratings] is empty, and
    dividing a Python float by zero raises.  The square root and the
    progress message that follow only print. *)
Definition mean_squared_error (total_error : npfloat) (n : nat)
  : Method npfloat :=
  if bool_decide (n = 0) then raise_ ZeroDivisionError
  else mret (fdiv total_error (Fin (inject_Z (Z.of_nat n)))).

Section fit.
Context `{Generator}.

(** [for epoch in range(n): ...]; [rng] is the generator created before
    the loop. *)
Fixpoint epochs (n : nat) (rng : rng_state) (u_indices i_indices : list nat)
    (ratings : list npfloat) : Method unit :=
  match n with
  | 0 => mret tt
  | S n' =>
      (* indices = np.arange(len(ratings)); rng.shuffle(indices) *)
      let shuffled := shuffle rng (seq 0 (length ratings)) in
      total_error ← sgd_pass u_indices i_indices ratings shuffled.1 (Fin 0);
      mean_squared_error total_error (length ratings);;
      epochs n' shuffled.2 u_indices i_indices ratings
  end.

(** [SVDModel.fit].  [entropy] is the operating system's entropy at the
    time of the call. *)
Definition fit (entropy : os_entropy) (user_ids item_ids : list Z)
    (ratings : list npfloat) : Method unit :=
  let unique_users := np_unique user_ids in
  let unique_items := np_unique item_ids in
  modify (with_user_map (enumerate_dict unique_users));;
  modify (with_item_map (enumerate_dict unique_items));;
  let n_users := length unique_users in
  let n_items := length unique_items in
  modify (with_global_mean (np_mean ratings));;
  modify (with_user_bias (Some (np_zeros n_users)));;
  modify (with_item_bias (Some (np_zeros n_items)));;
  let rng := default_rng (Some 42%Z) entropy in
  nf ← attr n_factors;
  let drawn := normal rng 0 (1 # 10) n_users nf in
  modify (with_user_factors (Some drawn.1));;
  let rng := drawn.2 in
  nf ← attr n_factors;
  let drawn := normal rng 0 (1 # 10) n_items nf in
  modify (with_item_factors (Some drawn.1));;
  let rng := drawn.2 in
  um ← attr user_map;
  u_indices ← lift (lookup_all um user_ids);
  im ← attr item_map;
  i_indices ← lift (lookup_all im item_ids);
  ne ← attr n_epochs;
  epochs ne rng u_indices i_indices ratings.
End fit.

(* ===================================================================== *)
(** * Sorting *)
(* ===================================================================== *)

(** Stable insertion sort: [x] goes before the first [y] with
    [leb x y]. *)
Fixpoint insert_by {A} (leb : A → A → bool) (x : A) (l : list A) : list A :=
  match l with
  | [] => [x]
  | y :: l' => if leb x y then x :: y :: l' else y :: insert_by leb x l'
  end.

Definition isort {A} (leb : A → A → bool) (l : list A) : list A :=
  foldr (insert_by leb) [] l.

(** [sorted(l, key=key, reverse=True)] and [l.sort(key=key, reverse=True)]:
    Python's sort is stable, also in reverse: the keys descend and equal
    keys keep their order in [l].  [ltb] is [<] on the keys.  (With NaN
    keys [<] is no order and the result is some rearrangement of [l].) *)
Definition sorted_reverse {A K} (ltb : K → K → bool) (key : A → K)
    (l : list A) : list A :=
  isort (λ x y, negb (ltb (key x) (key y))) l.

Definition Qltb (x y : Q) : bool := negb (Qle_bool y x).

(** [a[i]] where [i] is known to be in range. *)
Definition at_ (a : list Q) (i : nat) : Q := default 0%Q (a !! i).

(** [ndarray.argsort()] belongs to NumPy: a permutation of the indices
    that puts the values in ascending order.  Its default kind (an
    introsort) promises no order among equal values, so the interface
    does not either. *)
Class ArgSort : Type := {
  argsort : list Q → list nat;
  argsort_perm : ∀ a, argsort a ≡ₚ seq 0 (length a);
  argsort_sorted : ∀ a,
    StronglySorted (λ i j, (at_ a i <= at_ a j)%Q) (argsort a);
}.


(** Insertion sort on the indices, the sort NumPy's introsort runs on
    arrays of at most 16 elements. *)
Definition insertion_argsort (a : list Q) : list nat :=
  isort (λ i j, Qle_bool (at_ a i) (at_ a j)) (seq 0 (length a)).

(* ===================================================================== *)
(** * [storage.py] *)
(* ===================================================================== *)

(** One entry of [new_ratings.json]. *)
Record Rating : Type := mkRating {
  user_id : Z;
  movie_id : Z;
  rating : Q;
  timestamp : string;
}.

(** [get_ratings_for_user]; [ratings_file] is what [read_ratings] returns. *)
Definition get_ratings_for_user (ratings_file : list Rating) (uid : Z)
  : list Rating :=
  filter (λ r, user_id r = uid) ratings_file.

(* ===================================================================== *)
(** * [routers/recommendations_router.py] *)
(* ===================================================================== *)

(** A row of [movies_df]. *)
Record Movie : Type := mkMovie {
  movieId : Z;
  title : string;
  genres : string;
}.

(** A row of [_popularity]. *)
Record Popularity : Type := mkPopularity {
  pop_movieId : Z;
  count : nat;
  mean : Q;
}.

(** The module-level state of the router after import.
    [tfidf_similarity i j] is entry [j] of
    [cosine_similarity(_tfidf_matrix[i], _tfidf_matrix).flatten()]; the
    TF-IDF vectorizer and the cosine similarity belong to scikit-learn. *)
Record Globals : Type := mkGlobals {
  movies_df : list Movie;
  tfidf_similarity : nat → nat → Q;
  svd_model : option SVDModel;
  _popular_movie_ids : list Z;
}.

(** An element of the list returned by [_predict_svd_ratings]. *)
Record Prediction : Type := mkPrediction {
  p_movieId : Z;
  p_title : string;
  p_genres : string;
  predicted_rating : npfloat;
}.

(** The body returned by [get_recommendations]. *)
Record Recommendations : Type := mkRecommendations {
  rec_user_id : Z;
  seed_movie_id : Z;
  recommendations : list Prediction;
}.

(** The authenticated user, as [get_current_user] yields it. *)
Record User : Type := mkUser {
  id : Z;
  username : string;
}.

(** [df[df["movieId"] == mid]]: the matching rows with their positions. *)
Definition rows_with_id (df : list Movie) (mid : Z) : list (nat * Movie) :=
  filter (λ p, movieId p.2 = mid) (zip (seq 0 (length df)) df).

(** [df[df["movieId"] == mid].iloc[0]], if there is such a row. *)
Definition first_row (df : list Movie) (mid : Z) : option Movie :=
  match rows_with_id df mid with
  | [] => None
  | (_, r) :: _ => Some r
  end.

(** [df.iloc[indices]]. *)
Fixpoint iloc (df : list Movie) (indices : list nat) : result (list Movie) :=
  match indices with
  | [] => Ok []
  | i :: indices' =>
      row ← getitem df i; rows ← iloc df indices'; Ok (row :: rows)
  end.

(** [a[:k]] for a Python int [k]; a negative [k] counts from the end. *)
Definition slice_to {A} (a : list A) (k : Z) : list A :=
  if bool_decide (0 ≤ k)%Z then take (Z.to_nat k) a
  else take (Z.to_nat (Z.of_nat (length a) + k)) a.

(** [pd.read_csv(..., nrows=n)]: at most the first [n] rows. *)
Fixpoint read_nrows {A} (n : Z) (rows : list A) : list A :=
  match rows with
  | [] => []
  | r :: rows' => if (0 <? n)%Z then r :: read_nrows (n - 1) rows' else []
  end.

(** [not l] on a list. *)
Definition is_empty {A} (l : list A) : bool :=
  match l with
  | [] => true
  | _ :: _ => false
  end.

(** Lines 158-161 of [get_recommendations]: the list [liked] from which
    the seed is read. *)
Definition liked_or_sorted (user_ratings : list Rating) : list Rating :=
  let liked := filter (λ r, Qle_bool 4 (rating r) = true) user_ratings in
  if is_empty liked then sorted_reverse Qltb rating user_ratings else liked.

(** Line 173: [{r["movie_id"] for r in user_ratings}]. *)
Definition rated_ids (user_ratings : list Rating) : gset Z :=
  list_to_set (movie_id <$> user_ratings).

Section router.
Context `{ArgSort}.

(** [groupby("movieId").agg(count, mean).reset_index()]: one row per
    distinct id, in ascending id order. *)
Definition groupby_agg (sample : list (Z * Q)) : list Popularity :=
  (λ k, let rs := filter (λ r, r.1 = k) sample in
        {| pop_movieId := k;
           count := length rs;
           mean := (foldl Qplus 0 (rs.*2)
                    / inject_Z (Z.of_nat (length rs)))%Q |})
  <$> np_unique (sample.*1).

(** [df.sort_values(col, ascending=False)] on a frame without missing
    values: pandas reverses the column, sorts it ascending with
    [argsort], and reverses the resulting positions. *)
Definition sort_values_descending {A} (col : A → Q) (df : list A) : list A :=
  let items := reverse (col <$> df) in
  let non_nan_idx := reverse (seq 0 (length df)) in
  let indexer :=
    reverse (omap (λ p, non_nan_idx !! p) (argsort items)) in
  omap (λ i, df !! i) indexer.

(** Lines 58-74: the value of [_popular_movie_ids] after import;
    [ratings_csv] is the content of [ratings.csv] ([None] when the file
    does not exist). *)
Definition popular_movie_ids (ratings_csv : option (list (Z * Q)))
  : list Z :=
  match ratings_csv with
  | Some rows =>
      let _ratings_sample := read_nrows 1000000 rows in
      let _popularity := groupby_agg _ratings_sample in
      let _popular :=
        sort_values_descending mean
          (filter (λ p, 100 ≤ count p) _popularity) in
      take 50 (pop_movieId <$> _popular)
  | None => []
  end.

(** [_get_content_similar_movies]. *)
Definition _get_content_similar_movies (g : Globals) (mid : Z)
    (top_n : nat) : result (list Z) :=
  match rows_with_id (movies_df g) mid with
  | [] => Ok []
  | (idx, _) :: _ =>
      let sim_scores : list Q :=
        tfidf_similarity g idx <$> seq 0 (length (movies_df g)) in
      (* sim_scores.argsort()[::-1][1 : top_n + 1] *)
      let similar_indices :=
        take top_n (drop 1 (reverse (argsort sim_scores))) in
      rows ← iloc (movies_df g) similar_indices;
      Ok (movieId <$> (rows : list Movie))
  end.

(** [_predict_svd_ratings]. *)
Fixpoint _predict_svd_ratings (g : Globals) (uid : Z) (movie_ids : list Z)
  : result (list Prediction) :=
  match movie_ids with
  | [] => Ok []
  | mid :: movie_ids' =>
      match rows_with_id (movies_df g) mid with
      | [] => _predict_svd_ratings g uid movie_ids'
      | (_, row) :: _ =>
          predicted ← match svd_model g with
                      | Some model => predict model uid mid
                      | None => Ok (Fin 3)
                      end;
          results ← _predict_svd_ratings g uid movie_ids';
          Ok ({| p_movieId := mid;
                 p_title := title row;
                 p_genres := genres row;
                 predicted_rating := round2 predicted |} :: results)
      end
  end.

(** [get_popular_movies]. *)
Definition get_popular_movies (g : Globals) (limit : Z) : list Movie :=
  let selected_ids := slice_to (_popular_movie_ids g) limit in
  omap (first_row (movies_df g)) selected_ids.

(** [get_recommendations]; [ratings_file] is the content of the rating
    store at the time of the call. *)
Definition get_recommendations (g : Globals) (ratings_file : list Rating)
    (user : User) : result Recommendations :=
  let uid := id user in
  let user_ratings := get_ratings_for_user ratings_file uid in
  if is_empty user_ratings then
    Raise (HTTPException 400
      "No ratings found. Please rate some movies first (cold start).")
  else
    (* Step 1: find a movie the user recently liked *)
    let liked := liked_or_sorted user_ratings in
    seed ← or_raise IndexError (last liked);
    let seed_movie_id := movie_id seed in
    (* Step 2: content-based candidates *)
    similar_ids ← _get_content_similar_movies g seed_movie_id 30;
    let similar_ids :=
      if is_empty similar_ids then slice_to (_popular_movie_ids g) 30
      else similar_ids in
    (* remove movies the user has already rated *)
    let similar_ids :=
      filter (λ mid, mid ∉ rated_ids user_ratings) similar_ids in
    (* Step 3: predicted ratings *)
    predictions ← _predict_svd_ratings g uid similar_ids;
    (* Step 4: sort by predicted rating, keep the top 10 *)
    let predictions := sorted_reverse flt predicted_rating predictions in
    let top_10 := take 10 predictions in
    Ok {| rec_user_id := uid;
          seed_movie_id := seed_movie_id;
          recommendations := top_10 |}.
End router.

(* ===================================================================== *)
(** * A generator to run the model with

    A linear congruential generator that implements [Generator], used to
    evaluate [fit] on examples.  It is not NumPy's PCG64: the theorems
    below hold for every [Generator]. *)
(* ===================================================================== *)

Definition lcg_next (s : Z) : Z := ((s * 1103515245 + 12345) mod 2147483648)%Z.

(** A draw in [-0.1, 0.1]. *)
Definition lcg_draw (s : Z) : npfloat :=
  Fin (Qred ((s mod 2001 - 1000) # 10000)).

Fixpoint lcg_row (f : nat) (s : Z) : list npfloat * Z :=
  match f with
  | 0 => ([], s)
  | S f' =>
      let r := lcg_row f' (lcg_next s) in (lcg_draw (lcg_next s) :: r.1, r.2)
  end.

Fixpoint lcg_normal (n f : nat) (s : Z) : list (list npfloat) * Z :=
  match n with
  | 0 => ([], s)
  | S n' => let row := lcg_row f s in
            let m := lcg_normal n' f row.2 in (row.1 :: m.1, m.2)
  end.

(** A rotation of the array by a pseudo-random offset. *)
Definition lcg_shuffle (s : Z) (a : list nat) : list nat * Z :=
  let k := Z.to_nat (lcg_next s mod Z.max 1 (Z.of_nat (length a)))%Z in
  (drop k a ++ take k a, lcg_next s).

(* ===================================================================== *)
(** * Facts about the sort *)
(* ===================================================================== *)

Section isort.
Context {A : Type} (leb : A → A → bool).

Lemma insert_by_Permutation (x : A) (l : list A) :
  insert_by leb x l ≡ₚ x :: l.
Proof.
  induction l as [|y l IH]; simpl; [done|].
  destruct (leb x y); [done|].
  rewrite IH. apply Permutation_swap.
Qed.

Lemma isort_Permutation (l : list A) : isort leb l ≡ₚ l.
Proof.
  induction l as [|x l IH]; simpl; [done|].
  by rewrite insert_by_Permutation, IH.
Qed.

Lemma isort_length (l : list A) : length (isort leb l) = length l.
Proof. by rewrite isort_Permutation. Qed.

Lemma insert_by_StronglySorted (R : relation A) (x : A) (l : list A) :
  StronglySorted R l →
  (∀ y, y ∈ l → if leb x y then R x y else R y x) →
  (∀ y z, y ∈ l → z ∈ l → leb x y = true → R y z → R x z) →
  StronglySorted R (insert_by leb x l).
Proof.
  induction l as [|y l IH]; simpl; intros Hs Hxy Htr.
  - repeat constructor.
  - apply StronglySorted_inv in Hs as [Hs Hy].
    destruct (leb x y) eqn:E.
    + constructor; [by constructor|].
      pose proof (Hxy y ltac:(left)) as Hy'. rewrite E in Hy'.
      constructor; [done|].
      rewrite Forall_forall in Hy |- *. intros z Hz.
      apply (Htr y z); [left|by right|done|by apply Hy].
    + constructor.
      * apply IH; [done|..].
        -- intros z Hz. apply Hxy. by right.
        -- intros z w Hz Hw. apply Htr; by right.
      * rewrite insert_by_Permutation. constructor; [|done].
        pose proof (Hxy y ltac:(left)) as Hy'. by rewrite E in Hy'.
Qed.

(** The sort of a list that is ordered by [T] (its "original order") is
    ordered by every [R] that [leb] and [T] together force. *)
Lemma isort_StronglySorted (R T : relation A) (l : list A) :
  StronglySorted T l →
  (∀ x y, T x y → if leb x y then R x y else R y x) →
  (∀ x y z, T x y → T x z → leb x y = true → R y z → R x z) →
  StronglySorted R (isort leb l).
Proof.
  intros Hs Hxy Htr.
  induction Hs as [|x l Hs IH Hx]; simpl; [constructor|].
  rewrite Forall_forall in Hx.
  apply insert_by_StronglySorted; [done|..].
  - intros y Hy. rewrite isort_Permutation in Hy. by apply Hxy, Hx.
  - intros y z Hy Hz. rewrite isort_Permutation in Hy, Hz.
    apply Htr; by apply Hx.
Qed.
End isort.

Lemma StronglySorted_True {A} (l : list A) : StronglySorted (λ _ _, True) l.
Proof. induction l; constructor; [done|]. by apply Forall_forall. Qed.


Lemma Qle_bool_false (x y : Q) : Qle_bool x y = false → (y < x)%Q.
Proof.
  intros E. apply Qnot_le_lt. intros Hle%Qle_bool_iff. congruence.
Qed.

Lemma insertion_argsort_perm (a : list Q) :
  insertion_argsort a ≡ₚ seq 0 (length a).
Proof. apply isort_Permutation. Qed.

Lemma insertion_argsort_sorted (a : list Q) :
  StronglySorted (λ i j, (at_ a i <= at_ a j)%Q) (insertion_argsort a).
Proof.
  apply isort_StronglySorted with (T := λ _ _, True).
  - apply StronglySorted_True.
  - intros i j _. destruct (Qle_bool _ _) eqn:E.
    + by apply Qle_bool_iff.
    + by apply Qlt_le_weak, Qle_bool_false.
  - intros i j k _ _ Hij%Qle_bool_iff Hjk. by eapply Qle_trans.
Qed.

#[global] Instance insertion_sort : ArgSort := {|
  argsort := insertion_argsort;
  argsort_perm := insertion_argsort_perm;
  argsort_sorted := insertion_argsort_sorted;
|}.


(* ===================================================================== *)
(** * The linear congruential generator is a [Generator] *)
(* ===================================================================== *)

Lemma lcg_row_shape (f : nat) (s : Z) :
  length (lcg_row f s).1 = f ∧ Forall is_finite (lcg_row f s).1.
Proof.
  revert s. induction f as [|f IH]; intros s; simpl; [done|].
  destruct (IH (lcg_next s)) as [-> ?]. split; [done|]. by constructor.
Qed.

Lemma lcg_normal_shape (n f : nat) (s : Z) :
  length (lcg_normal n f s).1 = n
  ∧ Forall (λ row, length row = f ∧ Forall is_finite row) (lcg_normal n f s).1.
Proof.
  revert s. induction n as [|n IH]; intros s; simpl; [done|].
  destruct (IH (lcg_row f s).2) as [-> ?]. split; [done|].
  constructor; [apply lcg_row_shape|done].
Qed.

Lemma lcg_shuffle_perm (s : Z) (a : list nat) : (lcg_shuffle s a).1 ≡ₚ a.
Proof.
  unfold lcg_shuffle. simpl.
  rewrite Permutation_app_comm. by rewrite take_drop.
Qed.

#[global] Instance lcg : Generator := {|
  rng_state := Z;
  os_entropy := Z;
  default_rng seed entropy := default entropy seed;
  normal g _ _ n f := lcg_normal n f g;
  shuffle := lcg_shuffle;
  default_rng_seeded seed e1 e2 := eq_refl;
  normal_shape g _ _ n f := lcg_normal_shape n f g;
  shuffle_perm := lcg_shuffle_perm;
|}.

(* ===================================================================== *)
(** * Training: running [fit] *)
(* ===================================================================== *)

Ltac method_unfold :=
  unfold mbind, mret, Method_bind, Method_ret, bind_, ret_, raise_, lift,
    attr, modify, load, store in *.

(** The state [fit] leaves behind when it is given no triple at all. *)
Definition after_empty_fit (self : SVDModel) : SVDModel :=
  {| n_factors := n_factors self; n_epochs := n_epochs self;
     lr := lr self; reg := reg self;
     global_mean := NaN;
     user_bias := Some []; item_bias := Some [];
     user_factors := Some []; item_factors := Some [];
     user_map := ∅; item_map := ∅ |}.

Section fit_facts.
Context `{Generator}.

Lemma normal_zero_rows (g : rng_state) (loc scale : Q) (f : nat) :
  (normal g loc scale 0 f).1 = [].
Proof. apply nil_length_inv, normal_shape. Qed.

Lemma shuffle_nil (g : rng_state) : (shuffle g []).1 = [].
Proof. apply Permutation_nil_r, shuffle_perm. Qed.

Lemma fit_empty_state (entropy : os_entropy) (self : SVDModel) :
  (fit entropy [] [] [] self).2 = after_empty_fit self.
Proof.
  unfold fit. method_unfold. simpl.
  rewrite !normal_zero_rows.
  destruct (n_epochs self) as [|n]; simpl; [done|].
  method_unfold. rewrite shuffle_nil. simpl. done.
Qed.

Lemma fit_empty_outcome (entropy : os_entropy) (self : SVDModel) :
  (fit entropy [] [] [] self).1
  = match n_epochs self with
    | 0 => Ok tt
    | S _ => Raise ZeroDivisionError
    end.
Proof.
  unfold fit. method_unfold. simpl.
  destruct (n_epochs self) as [|n]; simpl; [done|].
  method_unfold. rewrite shuffle_nil. simpl. done.
Qed.
End fit_facts.

(* --------------------------------------------------------------------- *)
(** ** One SGD step *)

(** The values an SGD step writes, from the values it reads. *)
Definition sgd_err (mu bu bi : npfloat) (pu qi : list npfloat) (r : npfloat)
  : npfloat :=
  (r - (mu + bu + bi + np_sum (zip_with fmul pu qi)))%F.

Definition bias_update (lr_ reg_ err b : npfloat) : npfloat :=
  (b + lr_ * (err - reg_ * b))%F.

(** [mine + lr * (err * other - reg * mine)]. *)
Definition factor_update (lr_ reg_ err : npfloat) (mine other : list npfloat)
  : list npfloat :=
  vadd mine (vscale lr_ (vsub (vscale err other) (vscale reg_ mine))).

Lemma sgd_step_run (u_indices i_indices : list nat) (ratings : list npfloat)
    (idx u i : nat) (r bu bi : npfloat) (ub ib : list npfloat)
    (pu qi : list npfloat) (U V : list (list npfloat)) (self : SVDModel) :
  u_indices !! idx = Some u →
  i_indices !! idx = Some i →
  ratings !! idx = Some r →
  user_bias self = Some ub → ub !! u = Some bu →
  item_bias self = Some ib → ib !! i = Some bi →
  user_factors self = Some U → U !! u = Some pu →
  item_factors self = Some V → V !! i = Some qi →
  length pu = length qi →
  let err := sgd_err (global_mean self) bu bi pu qi r in
  let lr_ := Fin (lr self) in
  let reg_ := Fin (reg self) in
  sgd_step u_indices i_indices ratings idx self
  = (Ok (err * err)%F,
     with_item_factors (Some (<[i := factor_update lr_ reg_ err qi pu]> V))
       (with_user_factors (Some (<[u := factor_update lr_ reg_ err pu qi]> U))
          (with_item_bias (Some (<[i := bias_update lr_ reg_ err bi]> ib))
             (with_user_bias (Some (<[u := bias_update lr_ reg_ err bu]> ub))
                self)))).
Proof.
  intros Hu Hi Hr Hub Hbu Hib Hbi HU Hpu HV Hqi Hlen err lr_ reg_.
  pose proof (lookup_lt_Some _ _ _ Hbu) as Lu.
  pose proof (lookup_lt_Some _ _ _ Hbi) as Li.
  pose proof (lookup_lt_Some _ _ _ Hpu) as LU.
  pose proof (lookup_lt_Some _ _ _ Hqi) as LV.
  unfold sgd_step. method_unfold. unfold attr_getitem, getitem, np_dot.
  repeat progress
    (simpl;
     rewrite ?Hu, ?Hi, ?Hr, ?Hub, ?Hib, ?HU, ?HV, ?Hbu, ?Hbi, ?Hpu, ?Hqi,
       ?(bool_decide_eq_true_2 _ Hlen), ?(bool_decide_eq_true_2 _ Lu),
       ?(bool_decide_eq_true_2 _ Li), ?(bool_decide_eq_true_2 _ LU),
       ?(bool_decide_eq_true_2 _ LV)).
  reflexivity.
Qed.

(* --------------------------------------------------------------------- *)
(** ** The shape [fit] establishes and every step keeps *)

Definition finite_rows (f : nat) (M : list (list npfloat)) : Prop :=
  Forall (λ row, length row = f ∧ Forall is_finite row) M.

(** A model whose arrays have [nu] user rows and [ni] item rows of [f]
    finite factors, around the mean [mu] and the id maps [um] and [im]. *)
Record shaped (nu ni f : nat) (mu : npfloat) (um im : gmap Z nat)
    (m : SVDModel) : Prop := mkShaped {
  sh_factors : n_factors m = f;
  sh_mean : global_mean m = mu;
  sh_mean_finite : is_finite mu;
  sh_user_map : user_map m = um;
  sh_item_map : item_map m = im;
  sh_user_bias : ∃ b, user_bias m = Some b ∧ length b = nu ∧ Forall is_finite b;
  sh_item_bias : ∃ b, item_bias m = Some b ∧ length b = ni ∧ Forall is_finite b;
  sh_user_factors :
    ∃ M, user_factors m = Some M ∧ length M = nu ∧ finite_rows f M;
  sh_item_factors :
    ∃ M, item_factors m = Some M ∧ length M = ni ∧ finite_rows f M;
}.

Lemma is_finite_Fin (a : npfloat) : is_finite a ↔ ∃ q, a = Fin q.
Proof.
  destruct a; simpl; split; try done; [by eexists|by intros [??]].
Qed.

Lemma lift2_finite (f : Q → Q → Q) (a b : npfloat) :
  is_finite a → is_finite b → is_finite (lift2 f a b).
Proof. by destruct a, b. Qed.

Lemma fadd_finite (a b : npfloat) :
  is_finite a → is_finite b → is_finite (a + b)%F.
Proof. apply lift2_finite. Qed.
Lemma fsub_finite (a b : npfloat) :
  is_finite a → is_finite b → is_finite (a - b)%F.
Proof. apply lift2_finite. Qed.
Lemma fmul_finite (a b : npfloat) :
  is_finite a → is_finite b → is_finite (a * b)%F.
Proof. apply lift2_finite. Qed.

Create HintDb finite.
#[local] Hint Resolve fadd_finite fsub_finite fmul_finite : finite.

Lemma zip_with_finite (f : npfloat → npfloat → npfloat) (x y : list npfloat) :
  (∀ a b, is_finite a → is_finite b → is_finite (f a b)) →
  Forall is_finite x → Forall is_finite y → Forall is_finite (zip_with f x y).
Proof.
  intros Hf Hx. revert y. induction Hx as [|a x Ha Hx IH]; intros y Hy; [done|].
  destruct Hy as [|b y Hb Hy]; simpl; [done|]. constructor; auto.
Qed.

Lemma vscale_finite (c : npfloat) (x : list npfloat) :
  is_finite c → Forall is_finite x → Forall is_finite (vscale c x).
Proof.
  intros Hc Hx. unfold vscale. apply Forall_fmap.
  eapply Forall_impl; [exact Hx|]. intros a Ha. by apply fmul_finite.
Qed.

Lemma foldl_fadd_finite (a : npfloat) (x : list npfloat) :
  is_finite a → Forall is_finite x → is_finite (foldl fadd a x).
Proof.
  intros Ha Hx. revert a Ha.
  induction Hx as [|b x Hb Hx IH]; intros a Ha; simpl; [done|].
  apply IH. by apply fadd_finite.
Qed.

Lemma np_sum_finite (x : list npfloat) :
  Forall is_finite x → is_finite (np_sum x).
Proof. by apply foldl_fadd_finite. Qed.

Lemma factor_update_finite (lr_ reg_ err : npfloat) (mine other : list npfloat) :
  is_finite lr_ → is_finite reg_ → is_finite err →
  Forall is_finite mine → Forall is_finite other →
  Forall is_finite (factor_update lr_ reg_ err mine other).
Proof.
  intros. unfold factor_update, vadd, vsub.
  repeat first [ apply zip_with_finite; [by auto with finite|..]
               | apply vscale_finite | done ].
Qed.

Lemma factor_update_length (lr_ reg_ err : npfloat) (mine other : list npfloat) :
  length mine = length other →
  length (factor_update lr_ reg_ err mine other) = length mine.
Proof.
  intros Hl. unfold factor_update, vadd, vsub, vscale.
  repeat (rewrite length_zip_with || rewrite length_fmap). lia.
Qed.

Lemma bias_update_finite (lr_ reg_ err b : npfloat) :
  is_finite lr_ → is_finite reg_ → is_finite err → is_finite b →
  is_finite (bias_update lr_ reg_ err b).
Proof. intros. unfold bias_update. auto with finite. Qed.

Lemma sgd_err_finite (mu bu bi r : npfloat) (pu qi : list npfloat) :
  is_finite mu → is_finite bu → is_finite bi → is_finite r →
  Forall is_finite pu → Forall is_finite qi →
  is_finite (sgd_err mu bu bi pu qi r).
Proof.
  intros. unfold sgd_err.
  repeat first [ apply fsub_finite | apply fadd_finite | done ].
  apply np_sum_finite, zip_with_finite; auto with finite.
Qed.

(** Position [idx] holds a training triple with valid internal indices. *)
Definition triple_ok (nu ni : nat) (u_indices i_indices : list nat)
    (ratings : list npfloat) (idx : nat) : Prop :=
  ∃ u i r, u_indices !! idx = Some u ∧ u < nu
           ∧ i_indices !! idx = Some i ∧ i < ni
           ∧ ratings !! idx = Some r ∧ is_finite r.

Lemma sgd_step_ok (nu ni f : nat) (mu : npfloat) (um im : gmap Z nat)
    (u_indices i_indices : list nat) (ratings : list npfloat) (idx : nat)
    (m : SVDModel) :
  shaped nu ni f mu um im m →
  triple_ok nu ni u_indices i_indices ratings idx →
  ∃ e m', sgd_step u_indices i_indices ratings idx m = (Ok e, m')
          ∧ is_finite e ∧ shaped nu ni f mu um im m'.
Proof.
  intros [Hf Hmu Hfin Hum Him (ub & Hub & Lub & Fub) (ib & Hib & Lib & Fib)
            (U & HU & LU & FU) (V & HV & LV & FV)]
         (u & i & r & Hu & Hlu & Hi & Hli & Hr & Hrf).
  destruct (lookup_lt_is_Some_2 ub u) as [bu Hbu]; [lia|].
  destruct (lookup_lt_is_Some_2 ib i) as [bi Hbi]; [lia|].
  destruct (lookup_lt_is_Some_2 U u) as [pu Hpu]; [lia|].
  destruct (lookup_lt_is_Some_2 V i) as [qi Hqi]; [lia|].
  pose proof (Forall_lookup_1 _ _ _ _ Fub Hbu) as Fbu.
  pose proof (Forall_lookup_1 _ _ _ _ Fib Hbi) as Fbi.
  destruct (Forall_lookup_1 _ _ _ _ FU Hpu) as [Lpu Fpu].
  destruct (Forall_lookup_1 _ _ _ _ FV Hqi) as [Lqi Fqi].
  assert (length pu = length qi) as Hlen by congruence.
  assert (is_finite (sgd_err (global_mean m) bu bi pu qi r)) as Ferr.
  { rewrite Hmu. by apply sgd_err_finite. }
  eexists _, _. split; [by eapply sgd_step_run|].
  split; [by apply fmul_finite|].
  split; simpl; try done.
  - eexists. split; [done|]. rewrite length_insert. split; [done|].
    apply Forall_insert; [done|]. by apply bias_update_finite.
  - eexists. split; [done|]. rewrite length_insert. split; [done|].
    apply Forall_insert; [done|]. by apply bias_update_finite.
  - eexists. split; [done|]. rewrite length_insert. split; [done|].
    apply Forall_insert; [done|]. split.
    + by rewrite factor_update_length.
    + by apply factor_update_finite.
  - eexists. split; [done|]. rewrite length_insert. split; [done|].
    apply Forall_insert; [done|]. split.
    + by rewrite factor_update_length.
    + by apply factor_update_finite.
Qed.

Lemma sgd_pass_ok (nu ni f : nat) (mu : npfloat) (um im : gmap Z nat)
    (u_indices i_indices : list nat) (ratings : list npfloat)
    (indices : list nat) (total : npfloat) (m : SVDModel) :
  shaped nu ni f mu um im m →
  Forall (triple_ok nu ni u_indices i_indices ratings) indices →
  is_finite total →
  ∃ e m', sgd_pass u_indices i_indices ratings indices total m = (Ok e, m')
          ∧ is_finite e ∧ shaped nu ni f mu um im m'.
Proof.
  intros Hm Hall. revert total m Hm.
  induction Hall as [|idx indices Hidx Hall IH]; intros total m Hm Ht; simpl.
  - by eexists _, _.
  - destruct (sgd_step_ok _ _ _ _ _ _ _ _ _ _ _ Hm Hidx)
      as (e & m' & Hstep & He & Hm').
    destruct (IH (total + e)%F m' Hm') as (e' & m'' & Hpass & ? & ?);
      [by apply fadd_finite|].
    exists e', m''. split; [|done].
    method_unfold. by rewrite Hstep.
Qed.

Section training.
Context `{Generator}.

Lemma epochs_ok (nu ni f : nat) (mu : npfloat) (um im : gmap Z nat)
    (n : nat) (rng : rng_state) (u_indices i_indices : list nat)
    (ratings : list npfloat) (m : SVDModel) :
  shaped nu ni f mu um im m →
  ratings ≠ [] →
  (∀ idx, idx < length ratings →
          triple_ok nu ni u_indices i_indices ratings idx) →
  ∃ m', epochs n rng u_indices i_indices ratings m = (Ok tt, m')
        ∧ shaped nu ni f mu um im m'.
Proof.
  intros Hm Hne Hall. revert rng m Hm.
  induction n as [|n IH]; intros rng m Hm; simpl.
  - by eexists.
  - destruct (sgd_pass_ok nu ni f mu um im u_indices i_indices ratings
                (shuffle rng (seq 0 (length ratings))).1 (Fin 0) m)
      as (e & m' & Hpass & He & Hm'); [done| |done|].
    { apply Forall_forall. intros idx Hidx. apply Hall.
      rewrite shuffle_perm in Hidx. apply elem_of_seq in Hidx. lia. }
    destruct (IH (shuffle rng (seq 0 (length ratings))).2 m' Hm')
      as (m'' & Hrest & Hm'').
    exists m''. split; [|done].
    method_unfold. rewrite Hpass. unfold mean_squared_error.
    rewrite bool_decide_eq_false_2; [|by destruct ratings].
    method_unfold. exact Hrest.
Qed.
End training.

(* --------------------------------------------------------------------- *)
(** ** The id maps *)

Lemma elem_of_np_unique (a : list Z) (x : Z) : x ∈ np_unique a ↔ x ∈ a.
Proof.
  unfold np_unique. rewrite elem_of_remove_dups.
  by rewrite merge_sort_Permutation.
Qed.

Lemma NoDup_np_unique (a : list Z) : NoDup (np_unique a).
Proof. apply NoDup_remove_dups. Qed.

(** The dict comprehension started from the dict [d] at index [k]. *)
Definition enumerate_from (d : gmap Z nat) (k : nat) (xs : list Z)
  : gmap Z nat :=
  foldl (λ d p, <[p.2 := p.1]> d) d (zip (seq k (length xs)) xs).

Lemma enumerate_from_cons (d : gmap Z nat) (k : nat) (y : Z) (xs : list Z) :
  enumerate_from d k (y :: xs) = enumerate_from (<[y := k]> d) (S k) xs.
Proof. reflexivity. Qed.

Lemma enumerate_from_values (xs : list Z) (d : gmap Z nat) (k : nat)
    (x : Z) (i : nat) :
  enumerate_from d k xs !! x = Some i →
  d !! x = Some i ∨ (k ≤ i < k + length xs ∧ xs !! (i - k) = Some x).
Proof.
  revert d k. induction xs as [|y xs IH]; intros d k; [by left|].
  rewrite enumerate_from_cons. intros [Hd|[Hi Hx]]%IH.
  - destruct (decide (y = x)) as [->|Hne].
    + rewrite lookup_insert_eq in Hd. injection Hd as <-.
      right. split; [simpl; lia|]. by rewrite Nat.sub_diag.
    + rewrite lookup_insert_ne in Hd by done. by left.
  - right. split; [simpl; lia|].
    replace (i - k) with (S (i - S k)) by lia. done.
Qed.

Lemma enumerate_from_keeps (xs : list Z) (d : gmap Z nat) (k : nat) (x : Z) :
  is_Some (d !! x) → is_Some (enumerate_from d k xs !! x).
Proof.
  revert d k. induction xs as [|y xs IH]; intros d k Hd; [done|].
  rewrite enumerate_from_cons. apply IH. destruct (decide (y = x)) as [->|Hne].
  - by rewrite lookup_insert_eq.
  - by rewrite lookup_insert_ne.
Qed.

Lemma enumerate_from_elem (xs : list Z) (d : gmap Z nat) (k : nat) (x : Z) :
  x ∈ xs → is_Some (enumerate_from d k xs !! x).
Proof.
  revert d k. induction xs as [|y xs IH]; intros d k Hx.
  - by apply elem_of_nil in Hx.
  - rewrite enumerate_from_cons.
    destruct (decide (x ∈ xs)) as [Hin|Hnin]; [by apply IH|].
    apply elem_of_cons in Hx as [->|?]; [|done].
    apply enumerate_from_keeps. by rewrite lookup_insert_eq.
Qed.

Lemma enumerate_dict_lookup (xs : list Z) (x : Z) (i : nat) :
  enumerate_dict xs !! x = Some i → i < length xs ∧ xs !! i = Some x.
Proof.
  intros [Hd|[Hi Hx]]%enumerate_from_values.
  - by rewrite lookup_empty in Hd.
  - rewrite Nat.sub_0_r in Hx. split; [lia|done].
Qed.

Lemma enumerate_dict_elem (xs : list Z) (x : Z) :
  x ∈ xs ↔ is_Some (enumerate_dict xs !! x).
Proof.
  split; [apply enumerate_from_elem|].
  intros [i [_ Hi]%enumerate_dict_lookup]. by eapply list_elem_of_lookup_2.
Qed.

Lemma lookup_all_ok (d : gmap Z nat) (n : nat) (xs : list Z) :
  (∀ x, x ∈ xs → ∃ i, d !! x = Some i ∧ i < n) →
  ∃ idxs, lookup_all d xs = Ok idxs
          ∧ length idxs = length xs ∧ Forall (λ i, i < n) idxs.
Proof.
  induction xs as [|x xs IH]; intros Hd; simpl.
  - by exists [].
  - destruct (Hd x) as (i & Hi & Hlt); [left|].
    destruct IH as (idxs & -> & Hlen & Hall).
    { intros y Hy. apply Hd. by right. }
    exists (i :: idxs). unfold dict_getitem. rewrite Hi. simpl.
    split; [done|]. split; [by rewrite Hlen|by constructor].
Qed.

Lemma lookup_all_unique (xs : list Z) :
  ∃ idxs, lookup_all (enumerate_dict (np_unique xs)) xs = Ok idxs
          ∧ length idxs = length xs
          ∧ Forall (λ i, i < length (np_unique xs)) idxs.
Proof.
  apply lookup_all_ok. intros x Hx.
  destruct (proj1 (enumerate_dict_elem (np_unique xs) x)) as [i Hi].
  { by apply elem_of_np_unique. }
  exists i. split; [done|]. by apply enumerate_dict_lookup in Hi as [? _].
Qed.

(* --------------------------------------------------------------------- *)
(** ** The global mean *)

(** A rating value: a float in [0.5, 5.0]. *)
Definition rating_value (x : npfloat) : Prop :=
  match x with
  | Fin q => (1 # 2 <= q ∧ q <= 5)%Q
  | NaN => False
  end.

Lemma rating_value_finite (x : npfloat) : rating_value x → is_finite x.
Proof. by destruct x. Qed.

Lemma inject_nat_S (n : nat) :
  (inject_Z (Z.of_nat (S n)) == inject_Z (Z.of_nat n) + 1)%Q.
Proof. by rewrite Nat2Z.inj_succ, <- Z.add_1_r, inject_Z_plus. Qed.

Lemma foldl_fadd_bounds (l : list npfloat) (a : Q) :
  Forall rating_value l →
  ∃ s, foldl fadd (Fin a) l = Fin s
       ∧ (a + inject_Z (Z.of_nat (length l)) * (1 # 2) <= s
          ∧ s <= a + inject_Z (Z.of_nat (length l)) * 5)%Q.
Proof.
  intros Hl. revert a. induction Hl as [|x l Hx Hl IH]; intros a.
  - exists a. split; [done|].
    change (inject_Z (Z.of_nat (length (@nil npfloat)))) with 0%Q. lra.
  - destruct x as [q|]; [|done]. simpl in Hx.
    destruct (IH (Qred (a + q))) as (s & Hs & Hlo & Hhi).
    exists s. split; [exact Hs|].
    rewrite Qred_correct in Hlo, Hhi.
    change (length (Fin q :: l)) with (S (length l)).
    rewrite inject_nat_S. lra.
Qed.

Lemma np_mean_bounds (l : list npfloat) :
  l ≠ [] → Forall rating_value l → rating_value (np_mean l).
Proof.
  intros Hne Hl. destruct (foldl_fadd_bounds l 0 Hl) as (s & Hs & Hlo & Hhi).
  destruct l as [|x l]; [done|].
  unfold np_mean, np_sum. rewrite Hs. simpl.
  rewrite Qred_correct.
  set (n := inject_Z (Z.of_nat (length (x :: l)))) in *.
  assert (0 < n)%Q as Hn.
  { unfold n. change (length (x :: l)) with (S (length l)).
    rewrite inject_nat_S.
    assert (0 <= inject_Z (Z.of_nat (length l)))%Q; [|lra].
    rewrite <- (Zle_Qle 0). lia. }
  change (inject_Z (Z.of_nat (S (length l)))) with n.
  split.
  - apply Qle_shift_div_l; [done|]. lra.
  - apply Qle_shift_div_r; [done|]. lra.
Qed.

Lemma np_mean_finite (l : list npfloat) :
  l ≠ [] → Forall is_finite l → is_finite (np_mean l).
Proof.
  intros Hne Hl. destruct l as [|x l]; [done|].
  unfold np_mean. apply lift2_finite; [by apply np_sum_finite|done].
Qed.

(* --------------------------------------------------------------------- *)
(** ** [fit] succeeds on non-empty input and leaves a shaped model *)

Lemma np_zeros_finite (n : nat) : Forall is_finite (np_zeros n).
Proof. by apply Forall_replicate. Qed.

Section fit_ok.
Context `{Generator}.

Lemma fit_ok (entropy : os_entropy) (user_ids item_ids : list Z)
    (ratings : list npfloat) (self : SVDModel) :
  ratings ≠ [] →
  length user_ids = length ratings →
  length item_ids = length ratings →
  Forall is_finite ratings →
  ∃ m, fit entropy user_ids item_ids ratings self = (Ok tt, m)
       ∧ shaped (length (np_unique user_ids)) (length (np_unique item_ids))
           (n_factors self) (np_mean ratings)
           (enumerate_dict (np_unique user_ids))
           (enumerate_dict (np_unique item_ids)) m.
Proof.
  intros Hne Hlu Hli Hfin.
  destruct (lookup_all_unique user_ids) as (us & Hus & Lus & Fus).
  destruct (lookup_all_unique item_ids) as (is_ & His & Lis & Fis).
  unfold fit. method_unfold. simpl. rewrite Hus, His.
  apply epochs_ok; [|done|].
  - split; simpl; try done.
    + by apply np_mean_finite.
    + eexists. split; [done|]. split; [apply length_replicate|].
      apply np_zeros_finite.
    + eexists. split; [done|]. split; [apply length_replicate|].
      apply np_zeros_finite.
    + eexists. split; [done|]. apply normal_shape.
    + eexists. split; [done|]. apply normal_shape.
  - intros idx Hidx.
    destruct (lookup_lt_is_Some_2 us idx) as [u Hu]; [lia|].
    destruct (lookup_lt_is_Some_2 is_ idx) as [i Hi]; [lia|].
    destruct (lookup_lt_is_Some_2 ratings idx) as [r Hr]; [lia|].
    exists u, i, r. repeat split; try done.
    + exact (Forall_lookup_1 _ _ _ _ Fus Hu).
    + exact (Forall_lookup_1 _ _ _ _ Fis Hi).
    + exact (Forall_lookup_1 _ _ _ _ Hfin Hr).
Qed.
End fit_ok.

(* --------------------------------------------------------------------- *)
(** ** [predict] on a shaped model *)

Lemma np_clip_range (x : npfloat) :
  is_finite x → rating_value (np_clip x (1 # 2) 5).
Proof.
  destruct x as [q|]; [intros _|done]. simpl.
  destruct (Qle_bool q (1 # 2)) eqn:E1; [lra|].
  apply Qle_bool_false in E1.
  destruct (Qle_bool 5 q) eqn:E2; [lra|].
  apply Qle_bool_false in E2. lra.
Qed.

Lemma dict_contains_true {V} (d : gmap Z V) (k : Z) (v : V) :
  d !! k = Some v → dict_contains d k = true.
Proof. intros Hk. apply bool_decide_eq_true_2. by rewrite Hk. Qed.

Lemma dict_contains_false {V} (d : gmap Z V) (k : Z) :
  d !! k = None → dict_contains d k = false.
Proof.
  intros Hk. apply bool_decide_eq_false_2. rewrite Hk. by intros [??].
Qed.

Lemma predict_unknown (m : SVDModel) (uid iid : Z) :
  user_map m !! uid = None ∨ item_map m !! iid = None →
  predict m uid iid = Ok (global_mean m).
Proof.
  intros Hk. unfold predict.
  destruct Hk as [Hk|Hk]; rewrite (dict_contains_false _ _ Hk); simpl;
    [done|by rewrite orb_true_r].
Qed.

(** What [predict] reads and returns when both ids are known. *)
Definition known_prediction (m : SVDModel) (u i : nat) (v : npfloat) : Prop :=
  ∃ bu bi pu qi d,
    attr_getitem (user_bias m) u = Ok bu
    ∧ attr_getitem (item_bias m) i = Ok bi
    ∧ attr_getitem (user_factors m) u = Ok pu
    ∧ attr_getitem (item_factors m) i = Ok qi
    ∧ np_dot pu qi = Ok d
    ∧ v = np_clip (global_mean m + bu + bi + d) (1 # 2) 5.

Lemma predict_known (m : SVDModel) (uid iid : Z) (u i : nat) (v : npfloat) :
  user_map m !! uid = Some u → item_map m !! iid = Some i →
  known_prediction m u i v → predict m uid iid = Ok v.
Proof.
  intros Hu Hi (bu & bi & pu & qi & d & Hbu & Hbi & Hpu & Hqi & Hd & ->).
  unfold predict.
  rewrite (dict_contains_true _ _ _ Hu), (dict_contains_true _ _ _ Hi).
  unfold dict_getitem. rewrite Hu, Hi. simpl.
  rewrite Hbu. simpl. rewrite Hbi. simpl. rewrite Hpu. simpl.
  rewrite Hqi. simpl. rewrite Hd. done.
Qed.

Lemma shaped_known_prediction (nu ni f : nat) (mu : npfloat)
    (um im : gmap Z nat) (m : SVDModel) (u i : nat) :
  shaped nu ni f mu um im m → u < nu → i < ni →
  ∃ v, known_prediction m u i v ∧ rating_value v.
Proof.
  intros [Hf Hmu Hfin Hum Him (ub & Hub & Lub & Fub) (ib & Hib & Lib & Fib)
            (U & HU & LU & FU) (V & HV & LV & FV)] Hu Hi.
  destruct (lookup_lt_is_Some_2 ub u) as [bu Hbu]; [lia|].
  destruct (lookup_lt_is_Some_2 ib i) as [bi Hbi]; [lia|].
  destruct (lookup_lt_is_Some_2 U u) as [pu Hpu]; [lia|].
  destruct (lookup_lt_is_Some_2 V i) as [qi Hqi]; [lia|].
  pose proof (Forall_lookup_1 _ _ _ _ Fub Hbu) as Fbu.
  pose proof (Forall_lookup_1 _ _ _ _ Fib Hbi) as Fbi.
  destruct (Forall_lookup_1 _ _ _ _ FU Hpu) as [Lpu Fpu].
  destruct (Forall_lookup_1 _ _ _ _ FV Hqi) as [Lqi Fqi].
  eexists. split.
  - exists bu, bi, pu, qi, (np_sum (zip_with fmul pu qi)).
    rewrite Hub, Hib, HU, HV. unfold attr_getitem, getitem.
    rewrite Hbu, Hbi, Hpu, Hqi. simpl. repeat split.
    unfold np_dot. rewrite bool_decide_eq_true_2; [done|congruence].
  - apply np_clip_range. rewrite Hmu.
    repeat apply fadd_finite; try done.
    apply np_sum_finite, zip_with_finite; auto using fmul_finite.
Qed.

(** A model that serves every prediction without raising. *)
Definition serves (m : SVDModel) : Prop :=
  ∀ uid iid, ∃ v, predict m uid iid = Ok v.

Lemma shaped_serves (nu ni f : nat) (mu : npfloat) (xs ys : list Z)
    (m : SVDModel) :
  shaped nu ni f mu (enumerate_dict xs) (enumerate_dict ys) m →
  nu = length xs → ni = length ys → serves m.
Proof.
  intros Hm -> -> uid iid.
  destruct (user_map m !! uid) as [u|] eqn:Hu;
    [|eexists; apply predict_unknown; by left].
  destruct (item_map m !! iid) as [i|] eqn:Hi;
    [|eexists; apply predict_unknown; by right].
  destruct (shaped_known_prediction _ _ _ _ _ _ m u i Hm) as (v & Hv & _).
  - rewrite (sh_user_map _ _ _ _ _ _ _ Hm) in Hu.
    by apply enumerate_dict_lookup in Hu as [? _].
  - rewrite (sh_item_map _ _ _ _ _ _ _ Hm) in Hi.
    by apply enumerate_dict_lookup in Hi as [? _].
  - exists v. by eapply predict_known.
Qed.

(* ===================================================================== *)
(** * Properties of the latent-factor model *)
(* ===================================================================== *)



(** C6: training is deterministic.  [fit] seeds its generator with the
    constant 42, so whatever entropy the operating system holds at the
    time of the call, two runs on the same model, triples and
    hyperparameters start from the same generator state, draw the same
    initial factors and the same shuffle in every epoch, and end with the
    same outcome and the same model state: [global_mean], [user_bias],
    [item_bias], [user_factors] and [item_factors]. *)
Theorem fit_deterministic `{Generator} (entropy1 entropy2 : os_entropy)
    (user_ids item_ids : list Z) (ratings : list npfloat) (self : SVDModel) :
  fit entropy1 user_ids item_ids ratings self
  = fit entropy2 user_ids item_ids ratings self.
Proof.
  unfold fit.
  by rewrite (default_rng_seeded 42%Z entropy1 entropy2).
Qed.

(** C7: in an SGD step on user row [u] and item row [i], the new
    [user_factors[u]] is computed from the old [item_factors[i]] and the
    new [item_factors[i]] from the old [user_factors[u]]: with [pu] and
    [qi] the two rows before the step and [err] the error of the
    prediction made from the state before the step,
    [user_factors[u]] becomes [pu + lr * (err * qi - reg * pu)] and
    [item_factors[i]] becomes [qi + lr * (err * pu - reg * qi)]. *)
Theorem sgd_step_factor_updates (u_indices i_indices : list nat)
    (ratings : list npfloat) (idx u i : nat) (r bu bi : npfloat)
    (ub ib : list npfloat) (pu qi : list npfloat) (U V : list (list npfloat))
    (self : SVDModel) :
  u_indices !! idx = Some u →
  i_indices !! idx = Some i →
  ratings !! idx = Some r →
  user_bias self = Some ub → ub !! u = Some bu →
  item_bias self = Some ib → ib !! i = Some bi →
  user_factors self = Some U → U !! u = Some pu →
  item_factors self = Some V → V !! i = Some qi →
  length pu = length qi →
  let err :=
    (r - (global_mean self + bu + bi + np_sum (zip_with fmul pu qi)))%F in
  let lr_ := Fin (lr self) in
  let reg_ := Fin (reg self) in
  ∃ self' U' V',
    sgd_step u_indices i_indices ratings idx self = (Ok (err * err)%F, self')
    ∧ user_factors self' = Some U'
    ∧ item_factors self' = Some V'
    ∧ U' !! u
      = Some (vadd pu (vscale lr_ (vsub (vscale err qi) (vscale reg_ pu))))
    ∧ V' !! i
      = Some (vadd qi (vscale lr_ (vsub (vscale err pu) (vscale reg_ qi)))).
Proof.
  intros Hu Hi Hr Hub Hbu Hib Hbi HU Hpu HV Hqi Hlen err lr_ reg_.
  eexists _, _, _. split; [by eapply sgd_step_run|]. simpl.
  split; [done|]. split; [done|]. split.
  - apply list_lookup_insert_eq. by eapply lookup_lt_Some.
  - apply list_lookup_insert_eq. by eapply lookup_lt_Some.
Qed.

(** A model in the middle of training, for the example below. *)
Definition sgd_example : SVDModel :=
  {| n_factors := 2; n_epochs := 1; lr := 1 # 2; reg := 1 # 4;
     global_mean := Fin 3;
     user_bias := Some [Fin 0]; item_bias := Some [Fin 0];
     user_factors := Some [[Fin 1; Fin 0]];
     item_factors := Some [[Fin (1 # 2); Fin 1]];
     user_map := {[ 7%Z := 0 ]}; item_map := {[ 9%Z := 0 ]} |}.

Lemma sgd_step_factor_updates_witness :
  let err := (Fin 4 - (Fin 3 + Fin 0 + Fin 0
                       + np_sum (zip_with fmul [Fin 1; Fin 0]
                                   [Fin (1 # 2); Fin 1])))%F in
  ∃ self' U' V',
    sgd_step [0] [0] [Fin 4] 0 sgd_example = (Ok (err * err)%F, self')
    ∧ user_factors self' = Some U'
    ∧ item_factors self' = Some V'
    ∧ U' !! 0
      = Some (vadd [Fin 1; Fin 0]
                (vscale (Fin (1 # 2))
                   (vsub (vscale err [Fin (1 # 2); Fin 1])
                      (vscale (Fin (1 # 4)) [Fin 1; Fin 0]))))
    ∧ V' !! 0
      = Some (vadd [Fin (1 # 2); Fin 1]
                (vscale (Fin (1 # 2))
                   (vsub (vscale err [Fin 1; Fin 0])
                      (vscale (Fin (1 # 4)) [Fin (1 # 2); Fin 1])))).
Proof.
  exact (sgd_step_factor_updates [0] [0] [Fin 4] 0 0 0 (Fin 4) (Fin 0) (Fin 0)
           [Fin 0] [Fin 0] [Fin 1; Fin 0] [Fin (1 # 2); Fin 1]
           [[Fin 1; Fin 0]] [[Fin (1 # 2); Fin 1]] sgd_example
           eq_refl eq_refl eq_refl eq_refl eq_refl eq_refl eq_refl eq_refl
           eq_refl eq_refl eq_refl eq_refl).
Defined.

(** The new user row of the example really is built from the old item
    row: [1, 0] + 0.5 * (0.5 * [0.5, 1] - 0.25 * [1, 0]). *)
Example sgd_example_rows :
  (user_factors (sgd_step [0] [0] [Fin 4] 0 sgd_example).2,
   item_factors (sgd_step [0] [0] [Fin 4] 0 sgd_example).2)
  = (Some [[Fin 1; Fin (1 # 4)]], Some [[Fin (11 # 16); Fin (7 # 8)]]).
Proof. vm_compute. reflexivity. Qed.

(** C8, as the code has it: [fit] does not reject an empty set of
    triples up front.  With at least one epoch configured the call does
    fail, with the division by zero of the first epoch's RMSE, but only
    after the model state has been overwritten: the id maps are empty,
    [global_mean] is NaN, and the bias and factor arrays are empty
    arrays. *)
Theorem fit_empty_fails_late `{Generator} (entropy : os_entropy)
    (self : SVDModel) :
  0 < n_epochs self →
  fit entropy [] [] [] self
  = (Raise ZeroDivisionError,
     {| n_factors := n_factors self; n_epochs := n_epochs self;
        lr := lr self; reg := reg self;
        global_mean := NaN;
        user_bias := Some []; item_bias := Some [];
        user_factors := Some []; item_factors := Some [];
        user_map := ∅; item_map := ∅ |}).
Proof.
  intros Hn.
  rewrite (surjective_pairing (fit entropy [] [] [] self)).
  rewrite fit_empty_state, fit_empty_outcome. unfold after_empty_fit.
  destruct (n_epochs self) eqn:E; [lia|reflexivity].
Qed.

Lemma fit_empty_fails_late_witness :
  0 < n_epochs SVDModel_default
  ∧ fit (H := lcg) 0%Z [] [] [] SVDModel_default
    = (Raise ZeroDivisionError,
       {| n_factors := 50; n_epochs := 20; lr := 5 # 1000; reg := 2 # 100;
          global_mean := NaN;
          user_bias := Some []; item_bias := Some [];
          user_factors := Some []; item_factors := Some [];
          user_map := ∅; item_map := ∅ |}).
Proof.
  split; [simpl; lia|].
  apply (fit_empty_fails_late (H := lcg) 0%Z SVDModel_default). simpl. lia.
Defined.

(** C8 as stated fails: on a freshly constructed model, [fit] with no
    triples does not fail with the state unchanged. *)
Lemma fit_empty_changes_state :
  ¬ ∃ e, fit (H := lcg) 0%Z [] [] [] SVDModel_default
         = (Raise e, SVDModel_default).
Proof.
  intros [e He].
  apply (f_equal (λ p, global_mean p.2)) in He.
  rewrite fit_empty_state in He. discriminate He.
Qed.

(** C10: [predict] on a model that was never fitted raises nothing: both
    id maps are empty, so for every pair of ids the unknown-id branch
    returns the initial [global_mean] of 0.0 and the bias and factor arrays
    (all still [None]) are not read; 0.0 lies outside [0.5, 5.0]. *)
Theorem predict_unfitted (nf ne : nat) (lr0 reg0 : Q) (uid iid : Z) :
  let m := __init__ nf ne lr0 reg0 in
  predict m uid iid = Ok (Fin 0)
  ∧ dict_contains (user_map m) uid = false
  ∧ dict_contains (item_map m) iid = false
  ∧ user_bias m = None ∧ item_bias m = None
  ∧ user_factors m = None ∧ item_factors m = None
  ∧ ¬ rating_value (Fin 0).
Proof.
  repeat split.
  intros [Hlo _]. revert Hlo. unfold Qle. simpl. lia.
Qed.

(* ===================================================================== *)
(** * Facts about lists and orders *)
(* ===================================================================== *)

Lemma is_empty_true {A} (l : list A) : is_empty l = true ↔ l = [].
Proof. by destruct l. Qed.

Lemma is_empty_false {A} (l : list A) : is_empty l = false ↔ l ≠ [].
Proof. by destruct l. Qed.



Lemma StronglySorted_sublist {A} (R : relation A) (l k : list A) :
  l `sublist_of` k → StronglySorted R k → StronglySorted R l.
Proof.
  intros Hs Hk. revert l Hs.
  induction Hk as [|x k Hk IH Hx]; intros l Hs.
  - apply sublist_nil_r in Hs as ->. constructor.
  - apply sublist_cons_r in Hs as [Hs|(l' & -> & Hs)]; [by apply IH|].
    constructor; [by apply IH|].
    rewrite Forall_forall in Hx |- *. intros y Hy. apply Hx.
    by eapply elem_of_sublist.
Qed.



(** The last element of a sorted list is below every element. *)
Lemma StronglySorted_last {A} (R : relation A) (l : list A) (z : A) :
  Reflexive R → StronglySorted R l → last l = Some z → ∀ x, x ∈ l → R x z.
Proof.
  intros Hrefl Hl Hlast x Hx.
  apply last_Some in Hlast as (k & ->).
  apply StronglySorted_app in Hl as (Hl & _ & _).
  apply elem_of_app in Hx as [Hx| ->%list_elem_of_singleton]; [|done].
  apply Hl; [done|by left].
Qed.

Lemma remove_dups_sublist {A} `{EqDecision A} (l : list A) :
  remove_dups l `sublist_of` l.
Proof.
  induction l as [|x l IH]; simpl; [done|].
  destruct (decide_rel _ _ _); [by apply sublist_cons|by apply sublist_skip].
Qed.

(** [np.unique] returns its values in strictly ascending order. *)
Lemma np_unique_sorted (a : list Z) : StronglySorted Z.lt (np_unique a).
Proof.
  assert (StronglySorted Z.le (np_unique a)) as Hle.
  { eapply StronglySorted_sublist; [apply remove_dups_sublist|].
    apply StronglySorted_merge_sort; apply _. }
  pose proof (NoDup_np_unique a) as Hnd.
  induction Hle as [|x l Hl IH Hx]; [constructor|].
  apply NoDup_cons in Hnd as [Hx' Hnd].
  constructor; [by apply IH|].
  rewrite Forall_forall in Hx |- *. intros y Hy.
  specialize (Hx y Hy). assert (x ≠ y) by (by intros ->). lia.
Qed.

(* ===================================================================== *)
(** * Facts about the router's helpers *)
(* ===================================================================== *)

Lemma elem_of_zip_seq {A} (df : list A) (i : nat) (x : A) :
  (i, x) ∈ zip (seq 0 (length df)) df ↔ df !! i = Some x.
Proof.
  rewrite list_elem_of_lookup. split.
  - intros (j & (Hj & Hx)%lookup_zip_Some).
    apply lookup_seq in Hj as [-> _]. done.
  - intros Hx. exists i. apply lookup_zip_Some. split; [|done].
    apply lookup_seq. split; [done|]. by eapply lookup_lt_Some.
Qed.

Lemma elem_of_rows_with_id (df : list Movie) (mid : Z) (i : nat) (row : Movie) :
  (i, row) ∈ rows_with_id df mid ↔ df !! i = Some row ∧ movieId row = mid.
Proof.
  unfold rows_with_id. rewrite list_elem_of_filter, elem_of_zip_seq.
  simpl. tauto.
Qed.

Lemma rows_with_id_absent (df : list Movie) (mid : Z) :
  mid ∉ movieId <$> df → rows_with_id df mid = [].
Proof.
  intros Hmid. destruct (rows_with_id df mid) as [|[i row] rest] eqn:E; [done|].
  assert ((i, row) ∈ rows_with_id df mid) as Hin by (rewrite E; left).
  apply elem_of_rows_with_id in Hin as [Hrow <-].
  exfalso. apply Hmid, list_elem_of_fmap. exists row. split; [done|].
  by eapply list_elem_of_lookup_2.
Qed.

Lemma rows_with_id_present (df : list Movie) (mid : Z) :
  mid ∈ movieId <$> df → rows_with_id df mid ≠ [].
Proof.
  intros (row & -> & (i & Hi)%list_elem_of_lookup)%list_elem_of_fmap E.
  assert ((i, row) ∈ rows_with_id df (movieId row)) as Hin.
  { by apply elem_of_rows_with_id. }
  rewrite E in Hin. by apply elem_of_nil in Hin.
Qed.

Lemma iloc_ok (df : list Movie) (indices : list nat) :
  Forall (λ i, i < length df) indices →
  ∃ rows, iloc df indices = Ok rows
          ∧ Forall2 (λ i row, df !! i = Some row) indices rows.
Proof.
  induction 1 as [|i indices Hi _ (rows & IH & Hrows)]; simpl.
  - by exists [].
  - destruct (lookup_lt_is_Some_2 df i Hi) as [row Hrow].
    exists (row :: rows). unfold getitem. rewrite Hrow. simpl. rewrite IH.
    split; [done|]. by constructor.
Qed.

Section router_facts.
Context `{ArgSort}.

(** The rows of the catalog in descending order of their similarity to
    row [idx], as line 89 sees them before slicing:
    [sim_scores.argsort()[::-1]]. *)
Definition by_similarity (g : Globals) (idx : nat) : list nat :=
  reverse (argsort (tfidf_similarity g idx <$> seq 0 (length (movies_df g)))).


Lemma by_similarity_perm (g : Globals) (idx : nat) :
  by_similarity g idx ≡ₚ seq 0 (length (movies_df g)).
Proof.
  unfold by_similarity.
  by rewrite reverse_Permutation, argsort_perm, length_fmap, length_seq.
Qed.



Lemma similar_movies_run (g : Globals) (mid : Z) (top_n idx : nat)
    (row : Movie) (rest : list (nat * Movie)) :
  rows_with_id (movies_df g) mid = (idx, row) :: rest →
  ∃ rows,
    _get_content_similar_movies g mid top_n = Ok (movieId <$> rows)
    ∧ Forall2 (λ i r, movies_df g !! i = Some r)
        (take top_n (drop 1 (by_similarity g idx))) rows.
Proof.
  intros E. unfold _get_content_similar_movies. rewrite E.
  fold (by_similarity g idx).
  destruct (iloc_ok (movies_df g) (take top_n (drop 1 (by_similarity g idx))))
    as (rows & -> & Hrows).
  { apply Forall_forall. intros i Hi.
    apply (elem_of_sublist _ (by_similarity g idx)) in Hi.
    - rewrite by_similarity_perm in Hi. apply elem_of_seq in Hi. lia.
    - etrans; [apply sublist_take|apply sublist_drop]. }
  by exists rows.
Qed.

Lemma similar_movies_total (g : Globals) (mid : Z) (top_n : nat) :
  ∃ ids, _get_content_similar_movies g mid top_n = Ok ids.
Proof.
  destruct (rows_with_id (movies_df g) mid) as [|[idx row] rest] eqn:E.
  - exists []. unfold _get_content_similar_movies. by rewrite E.
  - destruct (similar_movies_run g mid top_n idx row rest E) as (rows & ? & _).
    by eexists.
Qed.

(** The model the router holds, if any, serves every prediction. *)
Definition model_serves (g : Globals) : Prop :=
  match svd_model g with
  | Some m => serves m
  | None => True
  end.

Lemma predict_svd_ratings_total (g : Globals) (uid : Z) (movie_ids : list Z) :
  model_serves g → ∃ ps, _predict_svd_ratings g uid movie_ids = Ok ps.
Proof.
  intros Hg. induction movie_ids as [|mid movie_ids (ps & IH)]; simpl.
  - by eexists.
  - destruct (rows_with_id (movies_df g) mid) as [|[i row] rest]; [by eexists|].
    assert (∃ v, match svd_model g with
                 | Some model => predict model uid mid
                 | None => Ok (Fin 3)
                 end = Ok v) as [v ->].
    { unfold model_serves in Hg. destruct (svd_model g); [apply Hg|by eexists]. }
    simpl. rewrite IH. simpl. by eexists.
Qed.

Lemma predict_svd_ratings_ids (g : Globals) (uid : Z) (movie_ids : list Z)
    (ps : list Prediction) :
  _predict_svd_ratings g uid movie_ids = Ok ps →
  ∀ p, p ∈ ps → p_movieId p ∈ movie_ids.
Proof.
  revert ps. induction movie_ids as [|mid movie_ids IH]; intros ps; simpl.
  - intros [= <-] p Hp. by apply elem_of_nil in Hp.
  - destruct (rows_with_id (movies_df g) mid) as [|[i row] rest].
    { intros Hps p Hp. right. by eapply IH. }
    destruct (match svd_model g with
              | Some model => predict model uid mid
              | None => Ok (Fin 3)
              end) as [v|e]; simpl; [|done].
    destruct (_predict_svd_ratings g uid movie_ids) as [ps'|e]; simpl; [|done].
    intros [= <-] p [->|Hp]%elem_of_cons; [left|right; by eapply IH].
Qed.

(** What [get_recommendations] computes on a non-empty history. *)
Lemma get_recommendations_inv (g : Globals) (ratings_file : list Rating)
    (user : User) (res : Recommendations) :
  get_recommendations g ratings_file user = Ok res →
  let history := get_ratings_for_user ratings_file (id user) in
  ∃ seed similar_ids predictions,
    history ≠ []
    ∧ last (liked_or_sorted history) = Some seed
    ∧ _get_content_similar_movies g (movie_id seed) 30 = Ok similar_ids
    ∧ _predict_svd_ratings g (id user)
        (filter (λ mid, mid ∉ rated_ids history)
           (if is_empty similar_ids then slice_to (_popular_movie_ids g) 30
            else similar_ids)) = Ok predictions
    ∧ res = {| rec_user_id := id user;
               seed_movie_id := movie_id seed;
               recommendations :=
                 take 10 (sorted_reverse flt predicted_rating predictions) |}.
Proof.
  unfold get_recommendations. cbv zeta.
  destruct (is_empty (get_ratings_for_user ratings_file (id user))) eqn:E;
    [done|].
  apply is_empty_false in E.
  destruct (last (liked_or_sorted _)) as [seed|] eqn:Es; simpl; [|done].
  destruct (_get_content_similar_movies g (movie_id seed) 30)
    as [similar_ids|] eqn:Ec; simpl; [|done].
  destruct (_predict_svd_ratings g (id user) _) as [predictions|] eqn:Ep;
    simpl; [|done].
  intros [= <-]. by exists seed, similar_ids, predictions.
Qed.

Lemma liked_or_sorted_nonempty (user_ratings : list Rating) :
  user_ratings ≠ [] → liked_or_sorted user_ratings ≠ [].
Proof.
  intros Hne. unfold liked_or_sorted. cbv zeta.
  destruct (is_empty (filter _ user_ratings)) eqn:E.
  - intros Hs. apply Hne, Permutation_nil_r.
    unfold sorted_reverse in Hs.
    erewrite <- isort_Permutation. by rewrite Hs.
  - by apply is_empty_false.
Qed.

Lemma get_recommendations_total (g : Globals) (ratings_file : list Rating)
    (user : User) :
  get_ratings_for_user ratings_file (id user) ≠ [] →
  model_serves g →
  ∃ res, get_recommendations g ratings_file user = Ok res.
Proof.
  intros Hne Hg. unfold get_recommendations. cbv zeta.
  rewrite (proj2 (is_empty_false _) Hne).
  destruct (last (liked_or_sorted _)) as [seed|] eqn:Es; last first.
  { apply last_None in Es. by apply liked_or_sorted_nonempty in Es. }
  simpl. destruct (similar_movies_total g (movie_id seed) 30) as [ids ->].
  simpl.
  destruct (predict_svd_ratings_total g (id user)
              (filter (λ mid, mid ∉ rated_ids
                                (get_ratings_for_user ratings_file (id user)))
                 (if is_empty ids then slice_to (_popular_movie_ids g) 30
                  else ids)) Hg) as [ps ->].
  simpl. by eexists.
Qed.
End router_facts.

Lemma sorted_reverse_Permutation {A K} (ltb : K → K → bool) (key : A → K)
    (l : list A) :
  sorted_reverse ltb key l ≡ₚ l.
Proof. apply isort_Permutation. Qed.

Lemma sorted_reverse_sorted {A} (key : A → Q) (l : list A) :
  StronglySorted (λ a b, (key b <= key a)%Q) (sorted_reverse Qltb key l).
Proof.
  apply isort_StronglySorted with (T := λ _ _, True).
  - apply StronglySorted_True.
  - intros x y _. unfold Qltb. rewrite negb_involutive.
    destruct (Qle_bool (key y) (key x)) eqn:E.
    + by apply Qle_bool_iff.
    + by apply Qlt_le_weak, Qle_bool_false.
  - intros x y z _ _ Hxy Hyz. unfold Qltb in Hxy.
    rewrite negb_involutive in Hxy. apply Qle_bool_iff in Hxy.
    by eapply Qle_trans.
Qed.

(* ===================================================================== *)
(** * Examples for the router *)
(* ===================================================================== *)

(** Cosine similarity of the TF-IDF rows of a catalog in which every
    movie has a single genre word: 1 for equal genres, 0 otherwise. *)
Definition genre_similarity (df : list Movie) (i j : nat) : Q :=
  match df !! i, df !! j with
  | Some a, Some b => if bool_decide (genres a = genres b) then 1 else 0
  | _, _ => 0
  end.

Definition twin_movies : list Movie :=
  [ mkMovie 1 "Heat" "Action"; mkMovie 2 "Ronin" "Action";
    mkMovie 3 "Clue" "Comedy"; mkMovie 4 "Big" "Comedy" ].

Definition twin_catalog : Globals :=
  {| movies_df := twin_movies;
     tfidf_similarity := genre_similarity twin_movies;
     svd_model := None;
     _popular_movie_ids := [] |}.

Definition example_ratings : list Rating :=
  [ mkRating 1 1 (9 # 2) "2024-01-01"; mkRating 2 3 5 "2024-01-02";
    mkRating 1 3 2 "2024-01-03" ].

Definition alice : User := {| id := 1; username := "alice" |}.
Definition carol : User := {| id := 3; username := "carol" |}.


(* ===================================================================== *)
(** * Properties of the ranking pipeline *)
(* ===================================================================== *)

(** C2: for every user with a non-empty rating history, the list that
    [get_recommendations] returns holds at most 10 items and none whose
    id occurs in the history; and the call does return a list whenever
    the loaded model (if any) serves its predictions. *)
Theorem recommendations_unseen_top10 `{ArgSort} (g : Globals)
    (ratings_file : list Rating) (user : User) :
  let history := get_ratings_for_user ratings_file (id user) in
  history ≠ [] →
  (model_serves g → ∃ res, get_recommendations g ratings_file user = Ok res)
  ∧ ∀ res, get_recommendations g ratings_file user = Ok res →
      length (recommendations res) ≤ 10
      ∧ ∀ p, p ∈ recommendations res → p_movieId p ∉ movie_id <$> history.
Proof.
  intros history Hne. split; [by apply get_recommendations_total|].
  intros res (seed & ids & ps & _ & _ & _ & Hps & ->)%get_recommendations_inv.
  simpl. split.
  - rewrite length_take. lia.
  - intros p Hp%elem_of_take. destruct Hp as (k & Hp%list_elem_of_lookup_2 & _).
    rewrite sorted_reverse_Permutation in Hp.
    apply (predict_svd_ratings_ids _ _ _ _ Hps) in Hp.
    apply list_elem_of_filter in Hp as [Hp _].
    unfold rated_ids in Hp. by rewrite not_elem_of_list_to_set in Hp.
Qed.

Lemma recommendations_unseen_top10_witness :
  ∃ res, get_recommendations (H := insertion_sort) twin_catalog
           example_ratings alice = Ok res.
Proof.
  apply (recommendations_unseen_top10 (H := insertion_sort) twin_catalog
           example_ratings alice); [discriminate|exact I].
Defined.

(** C3: on a non-empty history the seed is the last event, in the order
    supplied, among those rated at least 4.0; when no event is rated at
    least 4.0 it is the last element of the history sorted by rating in
    descending order, an event of lowest rating. *)
Theorem seed_selection `{ArgSort} (g : Globals)
    (ratings_file : list Rating) (user : User) :
  let history := get_ratings_for_user ratings_file (id user) in
  let liked := filter (λ r, Qle_bool 4 (rating r) = true) history in
  let by_rating := sorted_reverse Qltb rating history in
  history ≠ [] →
  (model_serves g → ∃ res, get_recommendations g ratings_file user = Ok res)
  ∧ ∀ res, get_recommendations g ratings_file user = Ok res →
      ∃ seed,
        seed_movie_id res = movie_id seed
        ∧ (liked ≠ [] → last liked = Some seed)
        ∧ (liked = [] →
           last by_rating = Some seed
           ∧ by_rating ≡ₚ history
           ∧ StronglySorted (λ a b, (rating b <= rating a)%Q) by_rating
           ∧ ∀ r, r ∈ history → (rating seed <= rating r)%Q).
Proof.
  intros history liked by_rating Hne.
  split; [by apply get_recommendations_total|].
  intros res (seed & ids & ps & _ & Hseed & _ & _ & ->)%get_recommendations_inv.
  exists seed. simpl. split; [done|].
  unfold liked_or_sorted in Hseed. cbv zeta in Hseed.
  fold history in Hseed. fold liked in Hseed. fold by_rating in Hseed.
  split.
  - intros Hl. by rewrite (proj2 (is_empty_false _) Hl) in Hseed.
  - intros Hl. rewrite (proj2 (is_empty_true _) Hl) in Hseed.
    split; [done|]. split; [apply sorted_reverse_Permutation|].
    split; [apply sorted_reverse_sorted|].
    intros r Hr.
    apply (StronglySorted_last (λ a b, (rating b <= rating a)%Q) by_rating).
    + intros a. apply Qle_refl.
    + apply sorted_reverse_sorted.
    + done.
    + unfold by_rating. by rewrite sorted_reverse_Permutation.
Qed.

Lemma seed_selection_witness :
  ∃ res, get_recommendations (H := insertion_sort) twin_catalog
           example_ratings alice = Ok res.
Proof.
  apply (seed_selection (H := insertion_sort) twin_catalog
           example_ratings alice); [discriminate|exact I].
Defined.

(** The two branches of the seed selection on concrete histories: the
    last liked event wins over a later disliked one, and without a liked
    event the lowest-rated one is taken. *)
Example seed_examples :
  seed_movie_id <$> get_recommendations (H := insertion_sort) twin_catalog
                     example_ratings alice = Ok 1%Z
  ∧ seed_movie_id <$> get_recommendations (H := insertion_sort) twin_catalog
                       [ mkRating 1 1 3 "t1"; mkRating 1 2 1 "t2";
                         mkRating 1 3 2 "t3" ] alice = Ok 2%Z.
Proof. split; vm_compute; reflexivity. Qed.

(** C4: with an empty rating history [get_recommendations] raises the
    HTTP 400 error "No ratings found ..." and returns no list. *)
Theorem empty_history_raises `{ArgSort} (g : Globals)
    (ratings_file : list Rating) (user : User) :
  get_ratings_for_user ratings_file (id user) = [] →
  get_recommendations g ratings_file user
  = Raise (HTTPException 400
      "No ratings found. Please rate some movies first (cold start).").
Proof. intros E. unfold get_recommendations. cbv zeta. by rewrite E. Qed.

Lemma empty_history_raises_witness :
  get_recommendations (H := insertion_sort) twin_catalog example_ratings carol
  = Raise (HTTPException 400
      "No ratings found. Please rate some movies first (cold start).").
Proof.
  apply (empty_history_raises (H := insertion_sort) twin_catalog
           example_ratings carol).
  reflexivity.
Defined.

(* ===================================================================== *)
(** * Properties of the content similarity index *)
(* ===================================================================== *)






(* ===================================================================== *)
(** * Facts about the popularity index *)
(* ===================================================================== *)

Lemma read_nrows_take {A} (n : Z) (rows : list A) :
  read_nrows n rows = take (Z.to_nat n) rows.
Proof.
  revert n. induction rows as [|r rows IH]; intros n; simpl.
  - by rewrite take_nil.
  - destruct (0 <? n)%Z eqn:E.
    + apply Z.ltb_lt in E. rewrite IH.
      replace (Z.to_nat n) with (S (Z.to_nat (n - 1))) by lia. done.
    + apply Z.ltb_ge in E. by replace (Z.to_nat n) with 0 by lia.
Qed.

Lemma omap_lookup_seq {A} (pre df : list A) :
  omap (λ i, (pre ++ df) !! i) (seq (length pre) (length df)) = df.
Proof.
  revert pre. induction df as [|x df IH]; intros pre; simpl; [done|].
  rewrite list_lookup_middle by done. f_equal.
  specialize (IH (pre ++ [x])).
  rewrite length_app, Nat.add_1_r, <- app_assoc in IH. exact IH.
Qed.

Lemma omap_lookup_all {A} (df : list A) :
  omap (λ i, df !! i) (seq 0 (length df)) = df.
Proof. exact (omap_lookup_seq [] df). Qed.

Lemma omap_total {A B} (f : A → option B) (g : A → B) (l : list A) :
  (∀ x, x ∈ l → f x = Some (g x)) → omap f l = g <$> l.
Proof.
  induction l as [|x l IH]; intros Hf; simpl; [done|].
  rewrite (Hf x) by left. simpl. f_equal. apply IH. intros y Hy.
  apply Hf. by right.
Qed.


Section sort_values.
Context `{ArgSort} {A : Type} (col : A → Q) (df : list A).

Let n := length df.
Let items := reverse (col <$> df).


Lemma non_nan_idx_lookup (p : nat) :
  p < n → reverse (seq 0 n) !! p = Some (n - S p).
Proof.
  intros Hp. rewrite reverse_lookup by (by rewrite length_seq).
  rewrite length_seq. apply lookup_seq. lia.
Qed.

Lemma argsort_items_lt (p : nat) : p ∈ argsort items → p < n.
Proof.
  rewrite argsort_perm. intros Hp%elem_of_seq.
  unfold items in Hp. rewrite length_reverse, length_fmap in Hp. lia.
Qed.

(** The positions [sort_values] reads the frame at. *)
Lemma sort_values_indexer :
  sort_values_descending col df
  = omap (λ i, df !! i) (reverse ((λ p, n - S p) <$> argsort items)).
Proof.
  unfold sort_values_descending. cbv zeta. fold n. fold items.
  do 2 f_equal. apply omap_total. intros p Hp.
  by apply non_nan_idx_lookup, argsort_items_lt.
Qed.

Lemma sort_values_descending_Permutation :
  sort_values_descending col df ≡ₚ df.
Proof.
  rewrite sort_values_indexer.
  trans (omap (λ i, df !! i) (seq 0 n));
    [|unfold n; by rewrite omap_lookup_all].
  apply omap_Permutation.
  rewrite reverse_Permutation, argsort_perm.
  unfold items. rewrite length_reverse, length_fmap. fold n.
  (* p ↦ n - 1 - p permutes 0 .. n-1 *)
  clear. induction n as [|m IH]; [done|].
  rewrite seq_S at 2. simpl.
  rewrite Nat.sub_0_r. rewrite <- Permutation_cons_append.
  constructor. rewrite <- fmap_S_seq, <- list_fmap_compose. exact IH.
Qed.

End sort_values.

Section popularity_facts.
Context `{ArgSort}.

Lemma groupby_agg_ids (sample : list (Z * Q)) :
  pop_movieId <$> groupby_agg sample = np_unique (sample.*1).
Proof.
  unfold groupby_agg. rewrite <- list_fmap_compose.
  rewrite <- (list_fmap_id (np_unique _)) at 2. by apply list_fmap_ext.
Qed.

Lemma groupby_agg_row (sample : list (Z * Q)) (p : Popularity) :
  p ∈ groupby_agg sample →
  let rs := filter (λ r, r.1 = pop_movieId p) sample in
  count p = length rs
  ∧ mean p = (foldl Qplus 0 (rs.*2) / inject_Z (Z.of_nat (length rs)))%Q.
Proof. by intros (k & -> & _)%list_elem_of_fmap. Qed.




Lemma slice_to_nonneg {A} (a : list A) (k : Z) :
  (0 ≤ k)%Z → slice_to a k = take (Z.to_nat k `min` length a) a.
Proof.
  intros Hk. unfold slice_to. rewrite bool_decide_eq_true_2 by done.
  destruct (Nat.min_spec (Z.to_nat k) (length a)) as [[_ ->]|[Hle ->]];
    [done|].
  by rewrite !take_ge by lia.
Qed.

Lemma first_row_id (df : list Movie) (mid : Z) (r : Movie) :
  first_row df mid = Some r → movieId r = mid.
Proof.
  unfold first_row.
  destruct (rows_with_id df mid) as [|[i r'] rest] eqn:E; [done|].
  intros [= ->].
  assert ((i, r) ∈ rows_with_id df mid) as Hin by (rewrite E; left).
  by apply elem_of_rows_with_id in Hin as [_ ?].
Qed.


End popularity_facts.



(** A rating file with a tie: movies 3 and 1 both average 4.0 over 100
    ratings, movie 2 averages 4.5, movie 4 has too few ratings. *)
Definition tied_ratings : list (Z * Q) :=
  replicate 100 (3%Z, 4%Q) ++ replicate 100 (1%Z, 4%Q)
  ++ replicate 100 (2%Z, 9 # 2) ++ replicate 99 (4%Z, 5%Q).

Definition tied_catalog : Globals :=
  {| movies_df := twin_movies;
     tfidf_similarity := genre_similarity twin_movies;
     svd_model := None;
     _popular_movie_ids :=
       popular_movie_ids (H := insertion_sort) (Some tied_ratings) |}.

(* ===================================================================== *)
(** * Properties of the popularity index *)
(* ===================================================================== *)





(** The tie of the example is broken by the original item order: movie 1
    comes before movie 3 although movie 3 is rated first in the file. *)
Example tied_catalog_popular :
  _popular_movie_ids tied_catalog = [2%Z; 1%Z; 3%Z]
  ∧ movieId <$> get_popular_movies tied_catalog 2 = [2%Z; 1%Z].
Proof. split; vm_compute; reflexivity. Qed.

(* ===================================================================== *)
(** * More on training: what a step and a fit leave alone *)
(* ===================================================================== *)

(** The parts of a model that training never touches after [fit] has set
    them: hyperparameters, global mean and id maps. *)
Definition same_config (m m' : SVDModel) : Prop :=
  n_factors m' = n_factors m ∧ n_epochs m' = n_epochs m
  ∧ lr m' = lr m ∧ reg m' = reg m
  ∧ global_mean m' = global_mean m
  ∧ user_map m' = user_map m ∧ item_map m' = item_map m.

(** A method body that keeps the configuration whatever its outcome. *)
Definition keeps_config {A} (c : Method A) : Prop :=
  ∀ self, same_config self (c self).2.

Lemma same_config_refl (m : SVDModel) : same_config m m.
Proof. by repeat split. Qed.

Lemma same_config_trans (m1 m2 m3 : SVDModel) :
  same_config m1 m2 → same_config m2 m3 → same_config m1 m3.
Proof.
  intros (?&?&?&?&?&?&?) (?&?&?&?&?&?&?). repeat split; congruence.
Qed.

Lemma keeps_config_bind {A B} (c : Method A) (k : A → Method B) :
  keeps_config c → (∀ a, keeps_config (k a)) → keeps_config (c ≫= k).
Proof.
  intros Hc Hk self. method_unfold. specialize (Hc self).
  destruct (c self) as [[a|e] self']; simpl in *; [|done].
  eapply same_config_trans; [exact Hc|apply Hk].
Qed.

Lemma keeps_config_pure {A} (r : result A) : keeps_config (lift r).
Proof. intros self. apply same_config_refl. Qed.

Lemma keeps_config_ret {A} (a : A) : keeps_config (mret a : Method A).
Proof. intros self. apply same_config_refl. Qed.

Lemma keeps_config_raise {A} (e : exn) : keeps_config (raise_ e : Method A).
Proof. intros self. apply same_config_refl. Qed.

Lemma keeps_config_attr {A} (f : SVDModel → A) : keeps_config (attr f).
Proof. intros self. apply same_config_refl. Qed.

Lemma keeps_config_load {A} (f : SVDModel → option (list A)) (i : nat) :
  keeps_config (load f i).
Proof. intros self. apply same_config_refl. Qed.

Lemma keeps_config_store {A} (f : SVDModel → option (list A))
    (upd : option (list A) → SVDModel → SVDModel) (i : nat) (v : A) :
  (∀ w s, same_config s (upd w s)) → keeps_config (store f upd i v).
Proof.
  intros Hupd self. unfold store.
  destruct (f self) as [l|]; [|apply same_config_refl].
  destruct (bool_decide _); [apply Hupd|apply same_config_refl].
Qed.

Lemma sgd_step_keeps_config (u_indices i_indices : list nat)
    (ratings : list npfloat) (idx : nat) :
  keeps_config (sgd_step u_indices i_indices ratings idx).
Proof.
  unfold sgd_step.
  repeat first
    [ apply keeps_config_bind; [|intros ?]
    | apply keeps_config_pure | apply keeps_config_attr
    | apply keeps_config_load | apply keeps_config_ret
    | apply keeps_config_store; intros ??; by repeat split ].
Qed.

Lemma sgd_pass_keeps_config (u_indices i_indices : list nat)
    (ratings : list npfloat) (indices : list nat) (total : npfloat) :
  keeps_config (sgd_pass u_indices i_indices ratings indices total).
Proof.
  revert total. induction indices as [|idx indices IH]; intros total; simpl.
  - apply keeps_config_ret.
  - apply keeps_config_bind; [apply sgd_step_keeps_config|]. intros e. apply IH.
Qed.

Lemma mean_squared_error_keeps_config (total : npfloat) (n : nat) :
  keeps_config (mean_squared_error total n).
Proof.
  unfold mean_squared_error.
  destruct (bool_decide _); [apply keeps_config_raise|apply keeps_config_ret].
Qed.

Section more_training.
Context `{Generator}.

Lemma epochs_keeps_config (n : nat) (rng : rng_state)
    (u_indices i_indices : list nat) (ratings : list npfloat) :
  keeps_config (epochs n rng u_indices i_indices ratings).
Proof.
  revert rng. induction n as [|n IH]; intros rng; simpl.
  - apply keeps_config_ret.
  - apply keeps_config_bind; [apply sgd_pass_keeps_config|]. intros e.
    apply keeps_config_bind; [apply mean_squared_error_keeps_config|].
    intros _. apply IH.
Qed.

(** Whatever its outcome, [fit] leaves the id maps and the mean it
    computed at the start, and the hyperparameters it was called with. *)
Lemma fit_config (entropy : os_entropy) (user_ids item_ids : list Z)
    (ratings : list npfloat) (self : SVDModel) :
  let m := (fit entropy user_ids item_ids ratings self).2 in
  user_map m = enumerate_dict (np_unique user_ids)
  ∧ item_map m = enumerate_dict (np_unique item_ids)
  ∧ global_mean m = np_mean ratings
  ∧ n_factors m = n_factors self ∧ n_epochs m = n_epochs self
  ∧ lr m = lr self ∧ reg m = reg self.
Proof.
  unfold fit. method_unfold. simpl.
  destruct (lookup_all _ user_ids) as [us|]; simpl; [|by repeat split].
  destruct (lookup_all _ item_ids) as [is_|]; simpl; [|by repeat split].
  match goal with
  | |- context [epochs ?n ?g ?a ?b ?c ?s] =>
      destruct (epochs_keeps_config n g a b c s) as (?&?&?&?&?&?&?)
  end.
  repeat split; simpl in *; congruence.
Qed.
End more_training.

Lemma enumerate_dict_index (xs : list Z) (x : Z) (i : nat) :
  NoDup xs → enumerate_dict xs !! x = Some i ↔ xs !! i = Some x.
Proof.
  intros Hnd. split; [by intros [_ ?]%enumerate_dict_lookup|].
  intros Hi.
  destruct (proj1 (enumerate_dict_elem xs x)) as [j Hj].
  { by eapply list_elem_of_lookup_2. }
  pose proof Hj as [_ Hj']%enumerate_dict_lookup.
  by rewrite (NoDup_lookup _ _ _ _ Hnd Hi Hj').
Qed.

Lemma sgd_step_bad (u_indices i_indices : list nat) (ratings : list npfloat)
    (idx : nat) (m : SVDModel) :
  u_indices !! idx = None ∨ i_indices !! idx = None →
  (sgd_step u_indices i_indices ratings idx m).1 = Raise IndexError.
Proof.
  intros Hbad. unfold sgd_step. method_unfold. unfold getitem.
  destruct (u_indices !! idx) as [u|]; simpl; [|done].
  destruct Hbad as [?| ->]; [done|]. done.
Qed.

Lemma sgd_pass_bad (nu ni f : nat) (mu : npfloat) (um im : gmap Z nat)
    (u_indices i_indices : list nat) (ratings : list npfloat)
    (indices : list nat) (total : npfloat) (m : SVDModel) :
  shaped nu ni f mu um im m →
  Forall (λ idx, triple_ok nu ni u_indices i_indices ratings idx
                 ∨ u_indices !! idx = None ∨ i_indices !! idx = None)
    indices →
  Exists (λ idx, u_indices !! idx = None ∨ i_indices !! idx = None) indices →
  is_finite total →
  (sgd_pass u_indices i_indices ratings indices total m).1 = Raise IndexError.
Proof.
  intros Hm Hall. revert total m Hm.
  induction Hall as [|idx indices Hidx Hall IH]; intros total m Hm Hex Ht.
  - by apply Exists_nil in Hex.
  - simpl. method_unfold. destruct Hidx as [Hok|Hbad].
    + destruct (sgd_step_ok _ _ _ _ _ _ _ _ _ _ _ Hm Hok)
        as (e & m' & -> & He & Hm').
      apply Exists_cons in Hex as [Hex|Hex].
      { destruct Hok as (u & i & r & Hu & _ & Hi & _).
        destruct Hex; congruence. }
      apply IH; [done..|by apply fadd_finite].
    + pose proof (sgd_step_bad u_indices i_indices ratings idx m Hbad) as Hs.
      destruct (sgd_step _ _ _ _ m) as [[?|?] ?]; simpl in *; congruence.
Qed.

(* ===================================================================== *)
(** * More properties of the latent-factor model *)
(* ===================================================================== *)

(** X1: [fit] numbers exactly the ids that occur in its input arrays:
    an id is in [user_map] (in [item_map]) if and only if it occurs in
    [user_ids] (in [item_ids]), and its index is its rank among the sorted
    distinct ids, so the indices are dense and no two ids share one.  The
    maps are set before anything can fail, so this holds whatever the
    outcome of [fit]. *)
Theorem fit_index_maps `{Generator} (entropy : os_entropy)
    (user_ids item_ids : list Z) (ratings : list npfloat) (self : SVDModel) :
  let m := (fit entropy user_ids item_ids ratings self).2 in
  (∀ uid i, user_map m !! uid = Some i ↔ np_unique user_ids !! i = Some uid)
  ∧ (∀ iid i, item_map m !! iid = Some i ↔ np_unique item_ids !! i = Some iid)
  ∧ (∀ uid, is_Some (user_map m !! uid) ↔ uid ∈ user_ids)
  ∧ (∀ iid, is_Some (item_map m !! iid) ↔ iid ∈ item_ids)
  ∧ StronglySorted Z.lt (np_unique user_ids)
  ∧ StronglySorted Z.lt (np_unique item_ids).
Proof.
  intros m.
  destruct (fit_config entropy user_ids item_ids ratings self)
    as (Hu & Hi & _).
  fold m in Hu, Hi. rewrite Hu, Hi.
  split; [intros uid i; apply enumerate_dict_index, NoDup_np_unique|].
  split; [intros iid i; apply enumerate_dict_index, NoDup_np_unique|].
  split; [intros uid; by rewrite <- enumerate_dict_elem, elem_of_np_unique|].
  split; [intros iid; by rewrite <- enumerate_dict_elem, elem_of_np_unique|].
  split; apply np_unique_sorted.
Qed.

(** X2: after [fit], whatever its outcome, [predict] answers every pair
    whose user id or item id does not occur in the training arrays with
    the mean of the training ratings, without raising. *)
Theorem predict_unseen `{Generator} (entropy : os_entropy)
    (user_ids item_ids : list Z) (ratings : list npfloat) (self : SVDModel)
    (uid iid : Z) :
  uid ∉ user_ids ∨ iid ∉ item_ids →
  predict (fit entropy user_ids item_ids ratings self).2 uid iid
  = Ok (np_mean ratings).
Proof.
  intros Hun.
  destruct (fit_config entropy user_ids item_ids ratings self)
    as (Hu & Hi & Hmean & _).
  rewrite <- Hmean. apply predict_unknown. rewrite Hu, Hi.
  destruct Hun as [Hun|Hun]; [left|right];
    apply eq_None_not_Some; intros Hs; apply Hun;
    by apply elem_of_np_unique, enumerate_dict_elem.
Qed.

Lemma predict_unseen_witness :
  predict (fit (H := lcg) 0%Z [1; 1; 2]%Z [1; 2; 1]%Z [Fin 5; Fin 3; Fin 4]
             (__init__ 2 2 (5 # 1000) (2 # 100))).2 7 1
  = Ok (np_mean [Fin 5; Fin 3; Fin 4]).
Proof.
  apply (predict_unseen (H := lcg)). left.
  intros Hin. by repeat (apply elem_of_cons in Hin as [?|Hin]; [done|]);
    apply elem_of_nil in Hin.
Defined.

(** X3: an SGD step on user row [u] and item row [i] succeeds on a
    well-shaped model and touches nothing else: every other user's bias
    and factor row and every other item's bias and factor row are as
    before, the arrays keep their lengths, and the hyperparameters, the
    global mean and the id maps are unchanged. *)
Theorem sgd_step_frame (u_indices i_indices : list nat)
    (ratings : list npfloat) (idx u i : nat) (r bu bi : npfloat)
    (ub ib : list npfloat) (pu qi : list npfloat) (U V : list (list npfloat))
    (self : SVDModel) :
  u_indices !! idx = Some u →
  i_indices !! idx = Some i →
  ratings !! idx = Some r →
  user_bias self = Some ub → ub !! u = Some bu →
  item_bias self = Some ib → ib !! i = Some bi →
  user_factors self = Some U → U !! u = Some pu →
  item_factors self = Some V → V !! i = Some qi →
  length pu = length qi →
  ∃ e self' ub' ib' U' V',
    sgd_step u_indices i_indices ratings idx self = (Ok e, self')
    ∧ user_bias self' = Some ub' ∧ item_bias self' = Some ib'
    ∧ user_factors self' = Some U' ∧ item_factors self' = Some V'
    ∧ length ub' = length ub ∧ length ib' = length ib
    ∧ length U' = length U ∧ length V' = length V
    ∧ (∀ u', u' ≠ u → ub' !! u' = ub !! u' ∧ U' !! u' = U !! u')
    ∧ (∀ i', i' ≠ i → ib' !! i' = ib !! i' ∧ V' !! i' = V !! i')
    ∧ same_config self self'.
Proof.
  intros Hu Hi Hr Hub Hbu Hib Hbi HU Hpu HV Hqi Hlen.
  eexists _, _, _, _, _, _. split; [by eapply sgd_step_run|]. simpl.
  repeat (split; [reflexivity|]). rewrite !length_insert.
  repeat (split; [reflexivity|]).
  split; [|split].
  - intros u' Hne. by rewrite !list_lookup_insert_ne.
  - intros i' Hne. by rewrite !list_lookup_insert_ne.
  - by repeat split.
Qed.

Lemma sgd_step_frame_witness :
  ∃ e self' ub' ib' U' V',
    sgd_step [0] [0] [Fin 4] 0 sgd_example = (Ok e, self')
    ∧ user_bias self' = Some ub' ∧ item_bias self' = Some ib'
    ∧ user_factors self' = Some U' ∧ item_factors self' = Some V'
    ∧ length ub' = 1 ∧ length ib' = 1 ∧ length U' = 1 ∧ length V' = 1
    ∧ (∀ u', u' ≠ 0 → ub' !! u' = [Fin 0] !! u'
                       ∧ U' !! u' = [[Fin 1; Fin 0]] !! u')
    ∧ (∀ i', i' ≠ 0 → ib' !! i' = [Fin 0] !! i'
                       ∧ V' !! i' = [[Fin (1 # 2); Fin 1]] !! i')
    ∧ same_config sgd_example self'.
Proof.
  exact (sgd_step_frame [0] [0] [Fin 4] 0 0 0 (Fin 4) (Fin 0) (Fin 0)
           [Fin 0] [Fin 0] [Fin 1; Fin 0] [Fin (1 # 2); Fin 1]
           [[Fin 1; Fin 0]] [[Fin (1 # 2); Fin 1]] sgd_example
           eq_refl eq_refl eq_refl eq_refl eq_refl eq_refl eq_refl eq_refl
           eq_refl eq_refl eq_refl eq_refl).
Defined.

(** X4: in an SGD step both biases move by the same error, the one of the
    prediction made before the step: [user_bias[u]] becomes
    [bu + lr * (err - reg * bu)] and [item_bias[i]] becomes
    [bi + lr * (err - reg * bi)], where [bu] and [bi] are the biases
    before the step; the step returns [err ** 2]. *)
Theorem sgd_step_bias_updates (u_indices i_indices : list nat)
    (ratings : list npfloat) (idx u i : nat) (r bu bi : npfloat)
    (ub ib : list npfloat) (pu qi : list npfloat) (U V : list (list npfloat))
    (self : SVDModel) :
  u_indices !! idx = Some u →
  i_indices !! idx = Some i →
  ratings !! idx = Some r →
  user_bias self = Some ub → ub !! u = Some bu →
  item_bias self = Some ib → ib !! i = Some bi →
  user_factors self = Some U → U !! u = Some pu →
  item_factors self = Some V → V !! i = Some qi →
  length pu = length qi →
  let err :=
    (r - (global_mean self + bu + bi + np_sum (zip_with fmul pu qi)))%F in
  ∃ self' ub' ib',
    sgd_step u_indices i_indices ratings idx self = (Ok (err * err)%F, self')
    ∧ user_bias self' = Some ub' ∧ item_bias self' = Some ib'
    ∧ ub' !! u = Some (bu + Fin (lr self) * (err - Fin (reg self) * bu))%F
    ∧ ib' !! i = Some (bi + Fin (lr self) * (err - Fin (reg self) * bi))%F.
Proof.
  intros Hu Hi Hr Hub Hbu Hib Hbi HU Hpu HV Hqi Hlen err.
  eexists _, _, _. split; [by eapply sgd_step_run|]. simpl.
  split; [done|]. split; [done|]. split.
  - apply list_lookup_insert_eq. by eapply lookup_lt_Some.
  - apply list_lookup_insert_eq. by eapply lookup_lt_Some.
Qed.

Lemma sgd_step_bias_updates_witness :
  ∃ self' ub' ib',
    sgd_step [0] [0] [Fin 4] 0 sgd_example
    = (Ok (Fin (1 # 4)), self')
    ∧ user_bias self' = Some ub' ∧ item_bias self' = Some ib'
    ∧ ub' !! 0 = Some (Fin (1 # 4))
    ∧ ib' !! 0 = Some (Fin (1 # 4)).
Proof.
  exact (sgd_step_bias_updates [0] [0] [Fin 4] 0 0 0 (Fin 4) (Fin 0) (Fin 0)
           [Fin 0] [Fin 0] [Fin 1; Fin 0] [Fin (1 # 2); Fin 1]
           [[Fin 1; Fin 0]] [[Fin (1 # 2); Fin 1]] sgd_example
           eq_refl eq_refl eq_refl eq_refl eq_refl eq_refl eq_refl eq_refl
           eq_refl eq_refl eq_refl eq_refl).
Defined.

(** X5: [fit] forgets the model it is called on: its outcome and the
    state it leaves depend on the hyperparameters of that model only, not
    on a mean, biases, factors or id maps from an earlier fit. *)
Theorem fit_overwrites `{Generator} (entropy : os_entropy)
    (user_ids item_ids : list Z) (ratings : list npfloat)
    (m1 m2 : SVDModel) :
  n_factors m1 = n_factors m2 → n_epochs m1 = n_epochs m2 →
  lr m1 = lr m2 → reg m1 = reg m2 →
  fit entropy user_ids item_ids ratings m1
  = fit entropy user_ids item_ids ratings m2.
Proof.
  destruct m1, m2. simpl. intros -> -> -> ->.
  unfold fit. method_unfold. reflexivity.
Qed.

Lemma fit_overwrites_witness :
  fit (H := lcg) 0%Z [1]%Z [1]%Z [Fin 4] sgd_example
  = fit (H := lcg) 0%Z [1]%Z [1]%Z [Fin 4] (__init__ 2 1 (1 # 2) (1 # 4)).
Proof.
  by apply (fit_overwrites (H := lcg)).
Defined.

(** X6: [fit] does not check that its three arrays have the same length.
    When [user_ids] or [item_ids] is shorter than [ratings] (finite
    ratings, at least one epoch), the first epoch reaches a position past
    the end of the shorter array and [fit] raises [IndexError]. *)
Theorem fit_length_mismatch `{Generator} (entropy : os_entropy)
    (user_ids item_ids : list Z) (ratings : list npfloat) (self : SVDModel) :
  0 < n_epochs self →
  Forall is_finite ratings →
  length user_ids < length ratings ∨ length item_ids < length ratings →
  (fit entropy user_ids item_ids ratings self).1 = Raise IndexError.
Proof.
  intros Hn Hfin Hshort.
  assert (ratings ≠ []) as Hne by (destruct ratings; simpl in *; [lia|done]).
  destruct (lookup_all_unique user_ids) as (us & Hus & Lus & Fus).
  destruct (lookup_all_unique item_ids) as (is_ & His & Lis & Fis).
  unfold fit. method_unfold. simpl. rewrite Hus, His.
  destruct (n_epochs self) as [|n]; [lia|]. simpl. method_unfold.
  match goal with
  | |- context [sgd_pass ?a ?b ?c ?l ?t ?s] =>
      assert ((sgd_pass a b c l t s).1 = Raise IndexError) as Hbad;
        [|destruct (sgd_pass a b c l t s) as [[e|e] s'];
          simpl in *; congruence]
  end.
  apply (sgd_pass_bad (length (np_unique user_ids))
           (length (np_unique item_ids)) (n_factors self)
           (np_mean ratings) (enumerate_dict (np_unique user_ids))
           (enumerate_dict (np_unique item_ids))); [| | |done].
  - split; simpl; try done.
    + by apply np_mean_finite.
    + eexists. split; [done|]. split; [apply length_replicate|].
      apply np_zeros_finite.
    + eexists. split; [done|]. split; [apply length_replicate|].
      apply np_zeros_finite.
    + eexists. split; [done|]. apply normal_shape.
    + eexists. split; [done|]. apply normal_shape.
  - apply Forall_forall. intros idx Hidx. rewrite shuffle_perm in Hidx.
    apply elem_of_seq in Hidx.
    destruct (us !! idx) as [u|] eqn:Hu; [|by right; left].
    destruct (is_ !! idx) as [i|] eqn:Hi; [|by right; right].
    destruct (lookup_lt_is_Some_2 ratings idx) as [r Hr]; [lia|].
    left. exists u, i, r. repeat split; try done.
    + exact (Forall_lookup_1 _ _ _ _ Fus Hu).
    + exact (Forall_lookup_1 _ _ _ _ Fis Hi).
    + exact (Forall_lookup_1 _ _ _ _ Hfin Hr).
  - apply Exists_exists. destruct Hshort as [Hs|Hs].
    + exists (length user_ids). split.
      * rewrite shuffle_perm. apply elem_of_seq. lia.
      * left. apply lookup_ge_None. lia.
    + exists (length item_ids). split.
      * rewrite shuffle_perm. apply elem_of_seq. lia.
      * right. apply lookup_ge_None. lia.
Qed.

Lemma fit_length_mismatch_witness :
  (fit (H := lcg) 0%Z [1]%Z [1; 2]%Z [Fin 4; Fin 3]
     (__init__ 2 1 (1 # 2) (1 # 4))).1 = Raise IndexError.
Proof.
  apply (fit_length_mismatch (H := lcg)); simpl; [lia| |lia].
  by repeat constructor.
Defined.

(* ===================================================================== *)
(** * More facts about the ranking pipeline *)
(* ===================================================================== *)

Lemma round_half_even_bounds (t : Q) :
  (50 <= t ∧ t <= 500)%Q →
  (50 ≤ round_half_even t ≤ 500)%Z.
Proof.
  intros [Hlo Hhi]. unfold round_half_even.
  pose proof (Qfloor_le t) as Hfl. pose proof (Qlt_floor t) as Hfu.
  rewrite inject_Z_plus in Hfu.
  set (f := Qfloor t) in *.
  assert (50 ≤ f)%Z as Hf50.
  { assert (inject_Z 49 < inject_Z f)%Q as Hlt.
    { change (inject_Z 49) with 49%Q. change (inject_Z 1) with 1%Q in Hfu.
      lra. }
    rewrite <- Zlt_Qlt in Hlt. lia. }
  assert (f ≤ 500)%Z as Hf500.
  { rewrite Zle_Qle. change (inject_Z 500) with 500%Q. lra. }
  assert ((1 # 2 <= t - inject_Z f)%Q → (f + 1 ≤ 500)%Z) as Hhalf.
  { intros Hr. assert (inject_Z f < inject_Z 500)%Q as Hlt.
    { change (inject_Z 500) with 500%Q. lra. }
    rewrite <- Zlt_Qlt in Hlt. lia. }
  destruct (Qcompare (t - inject_Z f) (1 # 2)) eqn:E.
  - apply Qeq_alt in E. destruct (Z.even f); [lia|].
    split; [lia|]. apply Hhalf. rewrite E. apply Qle_refl.
  - lia.
  - apply Qgt_alt in E. split; [lia|]. apply Hhalf. by apply Qlt_le_weak.
Qed.

(** Rounding to two decimals keeps a rating value a rating value. *)
Lemma round2_rating_value (x : npfloat) :
  rating_value x → rating_value (round2 x).
Proof.
  destruct x as [q|]; [|done]. simpl. intros [Hlo Hhi].
  rewrite Qred_correct.
  destruct (round_half_even_bounds (q * 100)) as [Hz1 Hz2]; [lra|].
  rewrite Zle_Qle in Hz1, Hz2.
  change (inject_Z 50) with 50%Q in Hz1.
  change (inject_Z 500) with 500%Q in Hz2.
  split.
  - apply Qle_shift_div_l; [reflexivity|]. lra.
  - apply Qle_shift_div_r; [reflexivity|]. lra.
Qed.

(** The model the router holds, if any, predicts rating values. *)
Definition model_in_range (g : Globals) : Prop :=
  match svd_model g with
  | Some m => ∀ uid iid, ∃ v, predict m uid iid = Ok v ∧ rating_value v
  | None => True
  end.

Lemma model_in_range_serves (g : Globals) : model_in_range g → model_serves g.
Proof.
  unfold model_in_range, model_serves. destruct (svd_model g) as [m|]; [|done].
  intros Hm uid iid. destruct (Hm uid iid) as (v & ? & _). by exists v.
Qed.

Section trained_models.
Context `{Generator}.

(** A model that [fit] trained on rating values predicts rating
    values. *)
Lemma fit_in_range (entropy : os_entropy) (user_ids item_ids : list Z)
    (ratings : list npfloat) (self : SVDModel) :
  ratings ≠ [] →
  length user_ids = length ratings →
  length item_ids = length ratings →
  Forall rating_value ratings →
  ∀ uid iid,
    ∃ v, predict (fit entropy user_ids item_ids ratings self).2 uid iid = Ok v
         ∧ rating_value v.
Proof.
  intros Hne Hlu Hli Hr uid iid.
  destruct (fit_ok entropy user_ids item_ids ratings self) as (m & Hfit & Hm);
    [done..| |].
  { eapply Forall_impl; [exact Hr|]. apply rating_value_finite. }
  rewrite Hfit. simpl.
  destruct (user_map m !! uid) as [u|] eqn:Hu; last first.
  { exists (global_mean m). split; [apply predict_unknown; by left|].
    rewrite (sh_mean _ _ _ _ _ _ _ Hm). by apply np_mean_bounds. }
  destruct (item_map m !! iid) as [i|] eqn:Hi; last first.
  { exists (global_mean m). split; [apply predict_unknown; by right|].
    rewrite (sh_mean _ _ _ _ _ _ _ Hm). by apply np_mean_bounds. }
  destruct (shaped_known_prediction _ _ _ _ _ _ m u i Hm) as (v & Hv & Hrange).
  { rewrite (sh_user_map _ _ _ _ _ _ _ Hm) in Hu.
    by apply enumerate_dict_lookup in Hu as [? _]. }
  { rewrite (sh_item_map _ _ _ _ _ _ _ Hm) in Hi.
    by apply enumerate_dict_lookup in Hi as [? _]. }
  exists v. split; [by eapply predict_known|done].
Qed.
End trained_models.

Lemma first_row_rows_with_id (df : list Movie) (mid : Z) :
  first_row df mid = snd <$> head (rows_with_id df mid).
Proof. unfold first_row. by destruct (rows_with_id df mid) as [|[??]?]. Qed.

Lemma first_row_absent (df : list Movie) (mid : Z) :
  mid ∉ movieId <$> df → first_row df mid = None.
Proof. intros Habs. unfold first_row. by rewrite rows_with_id_absent. Qed.

Lemma first_row_elem (df : list Movie) (mid : Z) (r : Movie) :
  first_row df mid = Some r → r ∈ df.
Proof.
  unfold first_row.
  destruct (rows_with_id df mid) as [|[i r'] rest] eqn:E; [done|].
  intros [= ->].
  assert ((i, r) ∈ rows_with_id df mid) as Hin by (rewrite E; left).
  apply elem_of_rows_with_id in Hin as [Hin _].
  by eapply list_elem_of_lookup_2.
Qed.

Section more_router_facts.
Context `{ArgSort}.

(** What [_predict_svd_ratings] returns: one entry per candidate that has
    a catalog row, in candidate order, carrying that row's title and
    genres and the rounded score. *)
Lemma predict_svd_ratings_entries (g : Globals) (uid : Z)
    (movie_ids : list Z) (ps : list Prediction) :
  _predict_svd_ratings g uid movie_ids = Ok ps →
  p_movieId <$> ps = filter (λ mid, mid ∈ movieId <$> movies_df g) movie_ids
  ∧ Forall
      (λ p, ∃ row v,
         first_row (movies_df g) (p_movieId p) = Some row
         ∧ p_title p = title row ∧ p_genres p = genres row
         ∧ match svd_model g with
           | Some model => predict model uid (p_movieId p)
           | None => Ok (Fin 3)
           end = Ok v
         ∧ predicted_rating p = round2 v) ps.
Proof.
  revert ps. induction movie_ids as [|mid movie_ids IH]; intros ps; simpl.
  - by intros [= <-].
  - destruct (rows_with_id (movies_df g) mid) as [|[i row] rest] eqn:E.
    { intros Hps. destruct (IH ps Hps) as [IH1 IH2]. split; [|done].
      rewrite filter_cons_False; [done|].
      intros Hin%rows_with_id_present. congruence. }
    destruct (match svd_model g with
              | Some model => predict model uid mid
              | None => Ok (Fin 3)
              end) as [v|e] eqn:Ev; simpl; [|done].
    destruct (_predict_svd_ratings g uid movie_ids) as [ps'|e]; simpl; [|done].
    intros [= <-]. destruct (IH ps' eq_refl) as [IH1 IH2]. split.
    + rewrite filter_cons_True; [rewrite fmap_cons; simpl; by f_equal|].
      destruct (decide (mid ∈ movieId <$> movies_df g)) as [|Habs]; [done|].
      apply rows_with_id_absent in Habs. congruence.
    + constructor; [|done]. exists row, v. simpl.
      unfold first_row. rewrite E. by rewrite Ev.
Qed.

(** The candidates that [get_recommendations] scores, for a given seed
    movie and history. *)
Definition unseen_candidates (g : Globals) (history : list Rating)
    (similar_ids : list Z) : list Z :=
  filter (λ mid, mid ∉ rated_ids history)
    (if is_empty similar_ids then slice_to (_popular_movie_ids g) 30
     else similar_ids).

Lemma get_recommendations_inv' (g : Globals) (ratings_file : list Rating)
    (user : User) (res : Recommendations) :
  get_recommendations g ratings_file user = Ok res →
  let history := get_ratings_for_user ratings_file (id user) in
  ∃ similar_ids predictions,
    _get_content_similar_movies g (seed_movie_id res) 30 = Ok similar_ids
    ∧ _predict_svd_ratings g (id user)
        (unseen_candidates g history similar_ids) = Ok predictions
    ∧ recommendations res
      = take 10 (sorted_reverse flt predicted_rating predictions).
Proof.
  intros (seed & ids & ps & _ & _ & Hsim & Hps & ->)%get_recommendations_inv.
  by exists ids, ps.
Qed.


(** Sorting a list whose keys never compare as smaller leaves it as it
    is. *)
Lemma isort_already {A} (leb : A → A → bool) (l : list A) :
  (∀ x y, x ∈ l → y ∈ l → leb x y = true) → isort leb l = l.
Proof.
  induction l as [|x l IH]; intros Hleb; simpl; [done|].
  rewrite IH by (intros y z Hy Hz; apply Hleb; by right).
  destruct l as [|y l]; simpl; [done|].
  rewrite Hleb; [done|left|right; left].
Qed.
End more_router_facts.

Section more_router_lemmas.
Context `{ArgSort}.


Lemma popular_movie_ids_NoDup (ratings_csv : option (list (Z * Q))) :
  NoDup (popular_movie_ids ratings_csv).
Proof.
  destruct ratings_csv as [rows|]; simpl; [|constructor].
  eapply sublist_NoDup; [|apply sublist_take].
  rewrite sort_values_descending_Permutation.
  eapply sublist_NoDup; [|apply fmap_sublist, sublist_filter].
  rewrite groupby_agg_ids. apply NoDup_np_unique.
Qed.

Lemma omap_first_row_sublist (df : list Movie) (ids : list Z) :
  movieId <$> omap (first_row df) ids `sublist_of` ids.
Proof.
  induction ids as [|mid ids IH]; simpl; [done|].
  destruct (first_row df mid) as [r|] eqn:E; simpl.
  - rewrite (first_row_id _ _ _ E). by apply sublist_skip.
  - by apply sublist_cons.
Qed.

Lemma slice_to_sublist {A} (a : list A) (k : Z) : slice_to a k `sublist_of` a.
Proof. unfold slice_to. destruct (bool_decide _); apply sublist_take. Qed.
End more_router_lemmas.

Definition trained_model : SVDModel :=
  (fit (H := lcg) 0%Z [1; 1; 2]%Z [1; 2; 1]%Z [Fin 5; Fin 3; Fin 4]
     (__init__ 2 2 (5 # 1000) (2 # 100))).2.

(** The catalog of the examples, served with a trained model and the
    popularity list of [tied_ratings]. *)
Definition trained_catalog : Globals :=
  {| movies_df := twin_movies;
     tfidf_similarity := genre_similarity twin_movies;
     svd_model := Some trained_model;
     _popular_movie_ids :=
       popular_movie_ids (H := insertion_sort) (Some tied_ratings) |}.

Lemma trained_catalog_in_range : model_in_range trained_catalog.
Proof.
  change (∀ uid iid, ∃ v, predict trained_model uid iid = Ok v
                          ∧ rating_value v).
  intros uid iid. unfold trained_model.
  apply (fit_in_range (H := lcg)); [done|reflexivity|reflexivity|].
  repeat constructor; unfold Qle; simpl; lia.
Qed.

(* ===================================================================== *)
(** * More properties of the ranking pipeline *)
(* ===================================================================== *)

(** X7: when the router holds no model, or one whose predictions are
    rating values (as every model trained by [fit] on rating values is),
    every recommendation carries a predicted rating in [0.5, 5.0]:
    rounding to two decimals does not leave the range. *)
Theorem recommendations_scores_in_range `{ArgSort} (g : Globals)
    (ratings_file : list Rating) (user : User) (res : Recommendations) :
  model_in_range g →
  get_recommendations g ratings_file user = Ok res →
  Forall (λ p, rating_value (predicted_rating p)) (recommendations res).
Proof.
  intros Hg (ids & ps & _ & Hps & ->)%get_recommendations_inv'.
  apply Forall_take. rewrite sorted_reverse_Permutation.
  destruct (predict_svd_ratings_entries _ _ _ _ Hps) as [_ Hent].
  eapply Forall_impl; [exact Hent|].
  intros p (row & v & _ & _ & _ & Hv & ->). apply round2_rating_value.
  unfold model_in_range in Hg. destruct (svd_model g) as [m|].
  - destruct (Hg (id user) (p_movieId p)) as (v' & Hv' & Hr). congruence.
  - injection Hv as <-. simpl. unfold Qle. simpl. lia.
Qed.

Lemma recommendations_scores_in_range_witness :
  ∃ res, get_recommendations (H := insertion_sort) trained_catalog
           example_ratings alice = Ok res
         ∧ Forall (λ p, rating_value (predicted_rating p))
             (recommendations res).
Proof.
  destruct (get_recommendations_total (H := insertion_sort) trained_catalog
              example_ratings alice) as [res Hres];
    [discriminate|apply model_in_range_serves, trained_catalog_in_range|].
  exists res. split; [done|].
  exact (recommendations_scores_in_range (H := insertion_sort) trained_catalog
           example_ratings alice res trained_catalog_in_range Hres).
Defined.



(** X9: every recommendation is a movie of the catalog: its title and
    genres are those of the first catalog row with its id. *)
Theorem recommendations_from_catalog `{ArgSort} (g : Globals)
    (ratings_file : list Rating) (user : User) (res : Recommendations) :
  get_recommendations g ratings_file user = Ok res →
  Forall (λ p, ∃ row, first_row (movies_df g) (p_movieId p) = Some row
                      ∧ row ∈ movies_df g
                      ∧ movieId row = p_movieId p
                      ∧ title row = p_title p
                      ∧ genres row = p_genres p)
    (recommendations res).
Proof.
  intros (ids & ps & _ & Hps & ->)%get_recommendations_inv'.
  apply Forall_take. rewrite sorted_reverse_Permutation.
  destruct (predict_svd_ratings_entries _ _ _ _ Hps) as [_ Hent].
  eapply Forall_impl; [exact Hent|].
  intros p (row & v & Hrow & Ht & Hg & _). exists row.
  split; [done|]. split; [by eapply first_row_elem|].
  split; [by eapply first_row_id|]. by split.
Qed.

Lemma recommendations_from_catalog_witness :
  Forall (λ p, ∃ row, first_row twin_movies (p_movieId p) = Some row
                      ∧ row ∈ twin_movies
                      ∧ movieId row = p_movieId p
                      ∧ title row = p_title p
                      ∧ genres row = p_genres p)
    [ {| p_movieId := 4; p_title := "Big"; p_genres := "Comedy";
         predicted_rating := Fin 3 |} ].
Proof.
  apply (recommendations_from_catalog (H := insertion_sort) twin_catalog
           example_ratings alice
           {| rec_user_id := 1; seed_movie_id := 1;
              recommendations :=
                [ {| p_movieId := 4; p_title := "Big"; p_genres := "Comedy";
                     predicted_rating := Fin 3 |} ] |}).
  vm_compute. reflexivity.
Defined.

(** X10: when the seed movie has no row in the catalog, the candidates
    are the first 30 entries of the popularity list, so every
    recommendation is one of them. *)
Theorem recommendations_fall_back_to_popular `{ArgSort} (g : Globals)
    (ratings_file : list Rating) (user : User) (res : Recommendations) :
  get_recommendations g ratings_file user = Ok res →
  seed_movie_id res ∉ movieId <$> movies_df g →
  ∀ p, p ∈ recommendations res → p_movieId p ∈ take 30 (_popular_movie_ids g).
Proof.
  intros (ids & ps & Hsim & Hps & ->)%get_recommendations_inv' Habs p Hp.
  unfold _get_content_similar_movies in Hsim.
  rewrite (rows_with_id_absent _ _ Habs) in Hsim. injection Hsim as <-.
  apply elem_of_take in Hp as (k & Hp%list_elem_of_lookup_2 & _).
  rewrite sorted_reverse_Permutation in Hp.
  apply (predict_svd_ratings_ids _ _ _ _ Hps) in Hp.
  unfold unseen_candidates in Hp. simpl in Hp.
  by apply list_elem_of_filter in Hp as [_ Hp].
Qed.

(** A user whose only liked movie, 5, is not in the catalog. *)
Definition dave_ratings : list Rating := [ mkRating 4 5 (9 # 2) "2024-02-01" ].
Definition dave : User := {| id := 4; username := "dave" |}.

Lemma recommendations_fall_back_to_popular_witness :
  ∃ res, get_recommendations (H := insertion_sort) tied_catalog
           dave_ratings dave = Ok res
         ∧ seed_movie_id res = 5%Z
         ∧ ∀ p, p ∈ recommendations res →
                p_movieId p ∈ take 30 (_popular_movie_ids tied_catalog).
Proof.
  eexists. split; [vm_compute; reflexivity|]. split; [reflexivity|].
  eapply (recommendations_fall_back_to_popular (H := insertion_sort)
            tied_catalog dave_ratings dave); [vm_compute; reflexivity|].
  simpl. intros Hin.
  by repeat (apply elem_of_cons in Hin as [?|Hin]; [done|]);
    apply elem_of_nil in Hin.
Defined.

(** X11: without a model every candidate scores 3.0, and since Python's
    sort is stable the recommendations are simply the first 10 unseen
    candidates that have a catalog row, in candidate order. *)
Theorem recommendations_without_model `{ArgSort} (g : Globals)
    (ratings_file : list Rating) (user : User) (res : Recommendations) :
  svd_model g = None →
  get_recommendations g ratings_file user = Ok res →
  let history := get_ratings_for_user ratings_file (id user) in
  ∃ similar_ids,
    _get_content_similar_movies g (seed_movie_id res) 30 = Ok similar_ids
    ∧ p_movieId <$> recommendations res
      = take 10 (filter (λ mid, mid ∈ movieId <$> movies_df g)
                   (unseen_candidates g history similar_ids))
    ∧ Forall (λ p, predicted_rating p = Fin 3) (recommendations res).
Proof.
  intros Hnone (ids & ps & Hsim & Hps & Hrec)%get_recommendations_inv'.
  intros history. exists ids. split; [done|].
  destruct (predict_svd_ratings_entries _ _ _ _ Hps) as [Hids Hent].
  assert (Forall (λ p, predicted_rating p = Fin 3) ps) as Hthree.
  { eapply Forall_impl; [exact Hent|].
    intros p (row & v & _ & _ & _ & Hv & ->). rewrite Hnone in Hv.
    injection Hv as <-. vm_compute. reflexivity. }
  assert (sorted_reverse flt predicted_rating ps = ps) as Hsame.
  { apply isort_already. intros p q Hp Hq.
    rewrite Forall_forall in Hthree.
    by rewrite (Hthree p Hp), (Hthree q Hq). }
  rewrite Hrec, Hsame. split.
  - by rewrite fmap_take, Hids.
  - by apply Forall_take.
Qed.

Lemma recommendations_without_model_witness :
  ∃ res, get_recommendations (H := insertion_sort) twin_catalog
           example_ratings alice = Ok res
         ∧ ∃ similar_ids,
             _get_content_similar_movies (H := insertion_sort) twin_catalog
               (seed_movie_id res) 30 = Ok similar_ids
             ∧ p_movieId <$> recommendations res
               = take 10 (filter (λ mid, mid ∈ movieId <$> twin_movies)
                            (unseen_candidates twin_catalog
                               (get_ratings_for_user example_ratings 1)
                               similar_ids))
             ∧ Forall (λ p, predicted_rating p = Fin 3) (recommendations res).
Proof.
  eexists. split; [vm_compute; reflexivity|].
  eapply (recommendations_without_model (H := insertion_sort) twin_catalog
            example_ratings alice); [reflexivity|vm_compute; reflexivity].
Defined.



(* ===================================================================== *)
(** * More properties of the popularity index *)
(* ===================================================================== *)

(** X13: the cached popularity list never holds an id twice, holds at
    most 50 ids, is empty when [ratings.csv] does not exist, and holds
    only ids rated at least 100 times among the first million rows. *)
Theorem popular_movie_ids_invariants `{ArgSort}
    (ratings_csv : option (list (Z * Q))) :
  let ids := popular_movie_ids ratings_csv in
  NoDup ids
  ∧ length ids ≤ 50
  ∧ (ratings_csv = None → ids = [])
  ∧ ∀ rows mid,
      ratings_csv = Some rows → mid ∈ ids →
      100 ≤ length (filter (λ r, r.1 = mid) (read_nrows 1000000 rows)).
Proof.
  intros ids. split; [apply popular_movie_ids_NoDup|]. split.
  { unfold ids. destruct ratings_csv; simpl; [|lia].
    rewrite length_take. lia. }
  split; [by intros ->|].
  intros rows mid -> Hmid. unfold ids in Hmid. simpl in Hmid.
  pose proof (elem_of_sublist _ _ _ Hmid (sublist_take _ _)) as Hin.
  clear Hmid. apply list_elem_of_fmap in Hin as (p & -> & Hp).
  rewrite sort_values_descending_Permutation in Hp.
  apply list_elem_of_filter in Hp as [Hcount Hp].
  by destruct (groupby_agg_row _ _ Hp) as [<- _].
Qed.

(** X14: whatever the limit, negative ones included,
    [get_popular_movies] only returns catalog rows whose ids are in the
    cached popularity list, in the order of that list and without
    repeating a position; for a limit [>= 0] it returns at most that many
    rows. *)
Theorem get_popular_movies_within_cache (g : Globals) (limit : Z) :
  movieId <$> get_popular_movies g limit `sublist_of` _popular_movie_ids g
  ∧ Forall (λ r, r ∈ movies_df g) (get_popular_movies g limit)
  ∧ ((0 ≤ limit)%Z → length (get_popular_movies g limit) ≤ Z.to_nat limit).
Proof.
  unfold get_popular_movies. cbv zeta. split; [|split].
  - etrans; [apply omap_first_row_sublist|apply slice_to_sublist].
  - apply Forall_forall. intros r (mid & _ & Hr)%list_elem_of_omap.
    by eapply first_row_elem.
  - intros Hl.
    assert (length (movieId <$> omap (first_row (movies_df g))
                                 (slice_to (_popular_movie_ids g) limit))
            ≤ length (slice_to (_popular_movie_ids g) limit)) as Hlen.
    { apply sublist_length, omap_first_row_sublist. }
    rewrite length_fmap in Hlen.
    rewrite slice_to_nonneg in Hlen |- * by done.
    rewrite length_take in Hlen. lia.
Qed.

Lemma get_popular_movies_within_cache_witness :
  length (get_popular_movies tied_catalog 2) ≤ 2.
Proof.
  apply (get_popular_movies_within_cache tied_catalog 2).
  lia.
Defined.

(* ===================================================================== *)
(** * [storage.py]: the users and the ratings on disk *)
(* ===================================================================== *)

From stdpp Require Import pretty.

(** One entry of [users.json]. *)
Record StoredUser : Type := mkStoredUser {
  su_id : Z;
  su_username : string;
  hashed_password : string;
}.

(** The content of [users.json] and [new_ratings.json].  [_ensure_files]
    creates a missing file as the empty list, so a missing file and an
    empty list are one state.  Reading a file back gives what was written
    (the JSON encoding is not modelled), and calls run one after another
    (the lock is not modelled). *)
Record Store : Type := mkStore {
  users_json : list StoredUser;
  new_ratings_json : list Rating;
}.

Definition read_users (s : Store) : list StoredUser := users_json s.

Definition write_users (users : list StoredUser) (s : Store) : Store :=
  {| users_json := users; new_ratings_json := new_ratings_json s |}.

(** [for user in users: if user["username"] == username: return user]. *)
Fixpoint find_username (users : list StoredUser) (name : string)
  : option StoredUser :=
  match users with
  | [] => None
  | user :: users' =>
      if bool_decide (su_username user = name) then Some user
      else find_username users' name
  end.

Definition get_user_by_username (s : Store) (name : string)
  : option StoredUser :=
  find_username (read_users s) name.

Definition get_next_user_id (s : Store) : Z :=
  match su_id <$> read_users s with
  | [] => 1
  | x :: xs => (foldl Z.max x xs + 1)%Z
  end.

(** [add_user]: the new user and the store it leaves. *)
Definition add_user (name hashed : string) (s : Store) : StoredUser * Store :=
  let users := read_users s in
  let new_user :=
    {| su_id := get_next_user_id s;
       su_username := name;
       hashed_password := hashed |} in
  (new_user, write_users (users ++ [new_user]) s).

Definition read_ratings (s : Store) : list Rating := new_ratings_json s.

Definition write_ratings (ratings : list Rating) (s : Store) : Store :=
  {| users_json := users_json s; new_ratings_json := ratings |}.

(** [add_rating]; [now] is [datetime.now(timezone.utc).isoformat()]. *)
Definition add_rating (now : string) (uid mid : Z) (r : Q) (s : Store)
  : Store :=
  write_ratings
    (read_ratings s
     ++ [ {| user_id := uid; movie_id := mid; rating := r;
             timestamp := now |} ]) s.

(** The body of a rating request, [SingleRating]; pydantic has checked
    [0.5 <= rating <= 5.0] before a handler sees it. *)
Record SingleRating : Type := mkSingleRating {
  sr_movie_id : Z;
  sr_rating : Q;
}.

(** [add_ratings_batch]: every entry gets the same timestamp. *)
Definition add_ratings_batch (now : string) (uid : Z)
    (rating_list : list SingleRating) (s : Store) : Store :=
  write_ratings
    (read_ratings s
     ++ ((λ r, {| user_id := uid; movie_id := sr_movie_id r;
                  rating := sr_rating r; timestamp := now |})
         <$> rating_list)) s.

(* ===================================================================== *)
(** * [routers/ratings_router.py] *)
(* ===================================================================== *)

Record RatingResponse : Type := mkRatingResponse {
  message : string;
}.

Record BatchRatingsRequest : Type := mkBatchRatingsRequest {
  ratings : list SingleRating;
}.

(** [submit_rating]. *)
Definition submit_rating (now : string) (body : SingleRating) (user : User)
    (s : Store) : RatingResponse * Store :=
  ({| message := "Rating saved successfully" |},
   add_rating now (id user) (sr_movie_id body) (sr_rating body) s).

(** [submit_batch_ratings]. *)
Definition submit_batch_ratings (now : string) (body : BatchRatingsRequest)
    (user : User) (s : Store) : result RatingResponse * Store :=
  if bool_decide (length (ratings body) < 3) then
    (Raise (HTTPException 400 "You must rate at least 3 movies"), s)
  else
    (Ok {| message :=
             pretty (length (ratings body)) +:+ " ratings saved successfully" |},
     add_ratings_batch now (id user) (ratings body) s).

(** [get_my_ratings]. *)
Definition get_my_ratings (user : User) (s : Store) : list Rating :=
  get_ratings_for_user (read_ratings s) (id user).

(* ===================================================================== *)
(** * [auth.py] and [routers/auth_router.py] *)
(* ===================================================================== *)

(** What [create_access_token] signs: the caller's [data] with the
    expiry added. *)
Record TokenClaims : Type := mkTokenClaims {
  tc_sub : string;
  tc_user_id : Z;
  tc_exp : Z;
}.

(** [payload.get("sub")] on a decoded token. *)
Inductive SubClaim : Type :=
  | SubMissing
  | SubString (name : string)
  | SubOther.

(** passlib's bcrypt context and PyJWT, as interfaces.  [pwd_hash] takes
    the salt that bcrypt draws; [pwd_verify] may raise on a malformed
    hash; [jwt_encode] is [jwt.encode(_, SECRET_KEY, algorithm=ALGORITHM)];
    [jwt_decode_sub now token] is [None] when [jwt.decode] raises a
    [PyJWTError] at time [now], and otherwise the ["sub"] entry of the
    payload. *)
Class AuthLibs : Type := {
  bcrypt_salt : Type;
  pwd_hash : bcrypt_salt → string → string;
  pwd_verify : string → string → result bool;
  jwt_encode : TokenClaims → string;
  jwt_decode_sub : Z → string → option SubClaim;
}.

Definition ACCESS_TOKEN_EXPIRE_MINUTES : Z := 60 * 24.

Record TokenData : Type := mkTokenData {
  td_sub : string;
  td_user_id : Z;
}.

Record Credentials : Type := mkCredentials {
  cr_username : string;
  cr_password : string;
}.

Record TokenResponse : Type := mkTokenResponse {
  access_token : string;
  token_type : string;
  tr_user_id : Z;
  tr_username : string;
}.

Definition credentials_exception : exn :=
  HTTPException 401 "Could not validate credentials".

Section auth.
Context `{AuthLibs}.

(** [create_access_token]; times and durations are in seconds.
    [expires_delta or timedelta(...)] takes the default also for a zero
    duration, which Python treats as false. *)
Definition create_access_token (data : TokenData) (expires_delta : option Z)
    (now : Z) : string :=
  let delta :=
    match expires_delta with
    | Some d => if bool_decide (d = 0%Z) then (ACCESS_TOKEN_EXPIRE_MINUTES * 60)%Z
                else d
    | None => (ACCESS_TOKEN_EXPIRE_MINUTES * 60)%Z
    end in
  jwt_encode {| tc_sub := td_sub data; tc_user_id := td_user_id data;
                tc_exp := (now + delta)%Z |}.

(** [get_current_user].  (The exception's [WWW-Authenticate] header is
    not represented.) *)
Definition get_current_user (now : Z) (token : string) (s : Store)
  : result StoredUser :=
  match jwt_decode_sub now token with
  | None => Raise credentials_exception
  | Some SubMissing => Raise credentials_exception
  | Some SubOther =>
      (* no stored username equals a value that is not a string *)
      Raise credentials_exception
  | Some (SubString name) =>
      match get_user_by_username s name with
      | None => Raise credentials_exception
      | Some user => Ok user
      end
  end.

(** [register]. *)
Definition register (salt : bcrypt_salt) (now : Z) (body : Credentials)
    (s : Store) : result TokenResponse * Store :=
  match get_user_by_username s (cr_username body) with
  | Some _ => (Raise (HTTPException 400 "Username already exists"), s)
  | None =>
      let hashed := pwd_hash salt (cr_password body) in
      let '(user, s') := add_user (cr_username body) hashed s in
      let token :=
        create_access_token
          {| td_sub := su_username user; td_user_id := su_id user |}
          None now in
      (Ok {| access_token := token; token_type := "bearer";
             tr_user_id := su_id user; tr_username := su_username user |},
       s')
  end.

(** [login]; it never writes to the store. *)
Definition login (now : Z) (body : Credentials) (s : Store)
  : result TokenResponse :=
  match get_user_by_username s (cr_username body) with
  | None => Raise (HTTPException 401 "Invalid username or password")
  | Some user =>
      ok ← pwd_verify (cr_password body) (hashed_password user);
      if negb ok then Raise (HTTPException 401 "Invalid username or password")
      else
        let token :=
          create_access_token
            {| td_sub := su_username user; td_user_id := su_id user |}
            None now in
        Ok {| access_token := token; token_type := "bearer";
              tr_user_id := su_id user; tr_username := su_username user |}
  end.
End auth.

(** Stand-ins for the two libraries, to run the examples: the "hash"
    keeps the password readable and the "token" is the user name.  The
    theorems hold for every [AuthLibs]. *)
#[global] Instance toy_auth : AuthLibs := {|
  bcrypt_salt := string;
  pwd_hash salt pw := salt +:+ "$" +:+ pw;
  pwd_verify pw h := Ok (bool_decide (h = "salt$" +:+ pw));
  jwt_encode c := tc_sub c;
  jwt_decode_sub now token :=
    if bool_decide (token = "") then None else Some (SubString token);
|}.

(* ===================================================================== *)
(** * Facts about the store *)
(* ===================================================================== *)

Lemma find_username_app (users : list StoredUser) (u : StoredUser)
    (name : string) :
  find_username (users ++ [u]) name
  = match find_username users name with
    | Some v => Some v
    | None => if bool_decide (su_username u = name) then Some u else None
    end.
Proof.
  induction users as [|v users IH]; simpl; [done|].
  by destruct (bool_decide (su_username v = name)).
Qed.

Lemma find_username_Some (users : list StoredUser) (name : string)
    (u : StoredUser) :
  find_username users name = Some u → u ∈ users ∧ su_username u = name.
Proof.
  induction users as [|v users IH]; simpl; [done|].
  destruct (bool_decide (su_username v = name)) eqn:E.
  - intros [= ->]. split; [left|]. by apply bool_decide_eq_true in E.
  - intros [??]%IH. split; [by right|done].
Qed.

Lemma find_username_None (users : list StoredUser) (name : string) :
  find_username users name = None ↔ name ∉ su_username <$> users.
Proof.
  induction users as [|v users IH].
  - split; [intros _ Hin; by apply elem_of_nil in Hin|done].
  - rewrite fmap_cons, not_elem_of_cons. simpl.
    destruct (bool_decide (su_username v = name)) eqn:E.
    + apply bool_decide_eq_true in E. split; [done|]. intros [Hne _].
      by destruct Hne.
    + apply bool_decide_eq_false in E. rewrite IH.
      split; [intros ?; split; [congruence|done]|by intros [_ ?]].
Qed.

Lemma foldl_max_ge (x : Z) (xs : list Z) :
  (x ≤ foldl Z.max x xs)%Z ∧ Forall (λ v, (v ≤ foldl Z.max x xs)%Z) xs.
Proof.
  revert x. induction xs as [|y xs IH]; intros x; simpl; [split; [lia|done]|].
  destruct (IH (Z.max x y)) as [H1 H2]. split; [lia|].
  constructor; [lia|done].
Qed.

Lemma get_next_user_id_fresh (s : Store) (v : StoredUser) :
  v ∈ read_users s → (su_id v < get_next_user_id s)%Z.
Proof.
  intros Hv. unfold get_next_user_id.
  assert (su_id v ∈ su_id <$> read_users s) as Hin.
  { apply list_elem_of_fmap. by exists v. }
  destruct (su_id <$> read_users s) as [|x xs]; [by apply elem_of_nil in Hin|].
  destruct (foldl_max_ge x xs) as [H1 H2]. rewrite Forall_forall in H2.
  apply elem_of_cons in Hin as [->|Hin]; [lia|]. specialize (H2 _ Hin). lia.
Qed.

Lemma filter_user_app (l k : list Rating) (uid : Z) :
  get_ratings_for_user (l ++ k) uid
  = get_ratings_for_user l uid ++ get_ratings_for_user k uid.
Proof. apply filter_app. Qed.

Lemma get_ratings_for_user_own (uid : Z) (l : list Rating) :
  Forall (λ r, user_id r = uid) l → get_ratings_for_user l uid = l.
Proof.
  unfold get_ratings_for_user. induction 1 as [|r l Hr _ IH]; [done|].
  by rewrite filter_cons_True, IH.
Qed.

Lemma get_ratings_for_user_other (uid uid' : Z) (l : list Rating) :
  uid' ≠ uid → Forall (λ r, user_id r = uid) l →
  get_ratings_for_user l uid' = [].
Proof.
  intros Hne. unfold get_ratings_for_user. induction 1 as [|r l Hr _ IH]; [done|].
  rewrite filter_cons_False; [done|]. congruence.
Qed.

(** The entries [add_ratings_batch] appends. *)
Definition batch_entries (now : string) (uid : Z)
    (rating_list : list SingleRating) : list Rating :=
  (λ r, {| user_id := uid; movie_id := sr_movie_id r;
           rating := sr_rating r; timestamp := now |}) <$> rating_list.

Lemma batch_entries_own (now : string) (uid : Z)
    (rating_list : list SingleRating) :
  Forall (λ r, user_id r = uid) (batch_entries now uid rating_list).
Proof. unfold batch_entries. by apply Forall_fmap, Forall_true. Qed.

Lemma add_rating_appends (now : string) (uid mid : Z) (r : Q) (s : Store)
    (uid' : Z) :
  get_ratings_for_user (read_ratings (add_rating now uid mid r s)) uid'
  = get_ratings_for_user (read_ratings s) uid'
    ++ (if decide (uid' = uid)
        then [ {| user_id := uid; movie_id := mid; rating := r;
                  timestamp := now |} ]
        else []).
Proof.
  unfold add_rating, read_ratings. simpl.
  rewrite filter_user_app. f_equal.
  destruct (decide (uid' = uid)) as [->|Hne].
  - apply get_ratings_for_user_own. by repeat constructor.
  - apply (get_ratings_for_user_other uid); [done|]. by repeat constructor.
Qed.

Lemma add_ratings_batch_appends (now : string) (uid : Z)
    (rating_list : list SingleRating) (s : Store) (uid' : Z) :
  get_ratings_for_user
    (read_ratings (add_ratings_batch now uid rating_list s)) uid'
  = get_ratings_for_user (read_ratings s) uid'
    ++ (if decide (uid' = uid) then batch_entries now uid rating_list else []).
Proof.
  unfold add_ratings_batch, read_ratings. simpl.
  rewrite filter_user_app. f_equal.
  destruct (decide (uid' = uid)) as [->|Hne].
  - apply get_ratings_for_user_own, batch_entries_own.
  - apply (get_ratings_for_user_other uid); [done|]. apply batch_entries_own.
Qed.

(* ===================================================================== *)
(** * Properties of the store *)
(* ===================================================================== *)

(** X15: [add_rating] appends: afterwards the history of the rating user
    is the old history followed by the new entry, every other user's
    history is as before, and the users file is untouched. *)
Theorem add_rating_history (now : string) (uid mid : Z) (r : Q) (s : Store)
    (uid' : Z) :
  get_ratings_for_user (read_ratings (add_rating now uid mid r s)) uid'
  = get_ratings_for_user (read_ratings s) uid'
    ++ (if decide (uid' = uid)
        then [ {| user_id := uid; movie_id := mid; rating := r;
                  timestamp := now |} ]
        else [])
  ∧ read_users (add_rating now uid mid r s) = read_users s.
Proof. split; [apply add_rating_appends|done]. Qed.

(** X16: [add_ratings_batch] appends the whole batch in its order, under
    one timestamp, to the history of the rating user only. *)
Theorem add_ratings_batch_history (now : string) (uid : Z)
    (rating_list : list SingleRating) (s : Store) (uid' : Z) :
  get_ratings_for_user
    (read_ratings (add_ratings_batch now uid rating_list s)) uid'
  = get_ratings_for_user (read_ratings s) uid'
    ++ (if decide (uid' = uid)
        then (λ r, {| user_id := uid; movie_id := sr_movie_id r;
                      rating := sr_rating r; timestamp := now |})
             <$> rating_list
        else [])
  ∧ read_users (add_ratings_batch now uid rating_list s) = read_users s.
Proof. split; [apply add_ratings_batch_appends|done]. Qed.

(** X17: [add_user] appends a user whose id is 1 in an empty store and
    otherwise greater than every id in the store, so ids that were
    distinct stay distinct; the ratings file is untouched. *)
Theorem add_user_fresh_id (name hashed : string) (s : Store) :
  let u := (add_user name hashed s).1 in
  let s' := (add_user name hashed s).2 in
  read_users s' = read_users s ++ [u]
  ∧ su_username u = name ∧ hashed_password u = hashed
  ∧ (read_users s = [] → su_id u = 1%Z)
  ∧ (∀ v, v ∈ read_users s → (su_id v < su_id u)%Z)
  ∧ (NoDup (su_id <$> read_users s) → NoDup (su_id <$> read_users s'))
  ∧ read_ratings s' = read_ratings s.
Proof.
  intros u s'. split; [done|]. split; [done|]. split; [done|].
  split.
  { intros Hnil. unfold u, add_user, get_next_user_id. simpl.
    by rewrite Hnil. }
  split; [intros v; apply get_next_user_id_fresh|].
  split; [|done].
  intros Hnd. unfold s', add_user, read_users. simpl.
  rewrite fmap_app. apply NoDup_app. split; [done|]. split.
  - intros x (v & -> & Hv)%list_elem_of_fmap Hx%list_elem_of_singleton.
    apply get_next_user_id_fresh in Hv. simpl in Hx. lia.
  - simpl. apply NoDup_singleton.
Qed.

(** X18: after [add_user], a user name that was in the store still
    resolves to the same (first) user, also when it is the new user's
    name, since [add_user] itself does not check for it; a name that was
    free resolves to the new user if it is the new name and to nobody
    otherwise. *)
Theorem add_user_lookup (name hashed : string) (s : Store) (name' : string) :
  get_user_by_username (add_user name hashed s).2 name'
  = match get_user_by_username s name' with
    | Some v => Some v
    | None => if bool_decide (name = name')
              then Some (add_user name hashed s).1 else None
    end.
Proof.
  unfold get_user_by_username, add_user, read_users. simpl.
  by rewrite find_username_app.
Qed.

Lemma liked_or_sorted_snoc (history : list Rating) (r : Rating) :
  (4 <= rating r)%Q → last (liked_or_sorted (history ++ [r])) = Some r.
Proof.
  intros Hr. unfold liked_or_sorted. cbv zeta.
  rewrite filter_app, filter_cons_True by (by apply Qle_bool_iff).
  rewrite filter_nil.
  destruct (is_empty _) eqn:E.
  - apply is_empty_true in E. by destruct (filter _ history).
  - apply last_snoc.
Qed.

(** The ratings in the store belong to users of the store. *)
Definition ratings_owned (s : Store) : Prop :=
  ∀ r, r ∈ read_ratings s → user_id r ∈ su_id <$> read_users s.

(** A store for the examples: two users, three ratings. *)
Definition example_store : Store :=
  {| users_json :=
       [ mkStoredUser 1 "alice" "salt$wonderland";
         mkStoredUser 2 "bob" "salt$builder" ];
     new_ratings_json := example_ratings |}.

(* ===================================================================== *)
(** * Properties of the rating endpoints and of what follows them *)
(* ===================================================================== *)

(** X19: [submit_batch_ratings] refuses a batch of fewer than three
    ratings with an HTTP 400 and stores nothing; a larger batch is
    answered with the count and appended, in its order, to the history
    that [get_my_ratings] shows the user. *)
Theorem submit_batch_ratings_outcome (now : string)
    (body : BatchRatingsRequest) (user : User) (s : Store) :
  (length (ratings body) < 3 →
   submit_batch_ratings now body user s
   = (Raise (HTTPException 400 "You must rate at least 3 movies"), s))
  ∧ (3 ≤ length (ratings body) →
     ∃ s',
       submit_batch_ratings now body user s
       = (Ok {| message := pretty (length (ratings body))
                           +:+ " ratings saved successfully" |}, s')
       ∧ get_my_ratings user s'
         = get_my_ratings user s
           ++ ((λ r, {| user_id := id user; movie_id := sr_movie_id r;
                        rating := sr_rating r; timestamp := now |})
               <$> ratings body)
       ∧ read_users s' = read_users s).
Proof.
  unfold submit_batch_ratings. split; intros Hlen.
  - by rewrite bool_decide_eq_true_2.
  - rewrite bool_decide_eq_false_2 by lia. eexists. split; [done|].
    unfold get_my_ratings. split; [|done].
    by rewrite add_ratings_batch_appends, decide_True.
Qed.

Lemma submit_batch_ratings_outcome_witness :
  submit_batch_ratings "t" {| ratings := [mkSingleRating 1 4] |} alice
    example_store
  = (Raise (HTTPException 400 "You must rate at least 3 movies"),
     example_store).
Proof.
  apply (submit_batch_ratings_outcome "t" {| ratings := [mkSingleRating 1 4] |}
           alice example_store).
  simpl. lia.
Defined.

(** X20: a movie the user has just rated 4.0 or higher is the seed of the
    user's next recommendations: [add_rating] appends, and the seed is
    the last liked entry. *)
Theorem liked_rating_becomes_seed `{ArgSort} (g : Globals) (now : string)
    (body : SingleRating) (user : User) (s : Store) (res : Recommendations) :
  (4 <= sr_rating body)%Q →
  get_recommendations g (read_ratings (submit_rating now body user s).2) user
  = Ok res →
  seed_movie_id res = sr_movie_id body.
Proof.
  intros Hr (seed & ids & ps & _ & Hseed & _ & _ & ->)%get_recommendations_inv.
  simpl.
  change (submit_rating now body user s).2
    with (add_rating now (id user) (sr_movie_id body) (sr_rating body) s)
    in Hseed.
  rewrite add_rating_appends, decide_True in Hseed by done.
  rewrite liked_or_sorted_snoc in Hseed by done.
  by injection Hseed as <-.
Qed.

Lemma liked_rating_becomes_seed_witness :
  ∃ res,
    get_recommendations (H := insertion_sort) twin_catalog
      (read_ratings
         (submit_rating "t" (mkSingleRating 2 (9 # 2)) alice example_store).2)
      alice = Ok res
    ∧ seed_movie_id res = 2%Z.
Proof.
  eexists. split; [vm_compute; reflexivity|].
  apply (liked_rating_becomes_seed (H := insertion_sort) twin_catalog "t"
           (mkSingleRating 2 (9 # 2)) alice example_store);
    [unfold Qle; simpl; lia|vm_compute; reflexivity].
Defined.

(** X21: once a user has submitted a rating, the recommendation endpoint
    no longer answers that user with the cold-start error: it returns a
    list whenever the loaded model (if any) serves its predictions, and
    the movie just rated is never in that list. *)
Theorem rated_movie_not_recommended `{ArgSort} (g : Globals) (now : string)
    (body : SingleRating) (user : User) (s : Store) :
  let ratings_file := read_ratings (submit_rating now body user s).2 in
  (model_serves g → ∃ res, get_recommendations g ratings_file user = Ok res)
  ∧ ∀ res, get_recommendations g ratings_file user = Ok res →
           ∀ p, p ∈ recommendations res → p_movieId p ≠ sr_movie_id body.
Proof.
  intros ratings_file.
  pose proof (add_rating_appends now (id user) (sr_movie_id body)
                (sr_rating body) s (id user)) as Hh.
  rewrite decide_True in Hh by done.
  split.
  - apply get_recommendations_total. unfold ratings_file.
    change (submit_rating now body user s).2
      with (add_rating now (id user) (sr_movie_id body) (sr_rating body) s).
    rewrite Hh. intros Hnil. by apply app_nil in Hnil as [_ ?].
  - intros res (ids & ps & _ & Hps & ->)%get_recommendations_inv' p Hp Heq.
    apply elem_of_take in Hp as (k & Hp%list_elem_of_lookup_2 & _).
    rewrite sorted_reverse_Permutation in Hp.
    apply (predict_svd_ratings_ids _ _ _ _ Hps) in Hp.
    apply list_elem_of_filter in Hp as [Hp _]. apply Hp. rewrite Heq.
    unfold rated_ids. apply elem_of_list_to_set, list_elem_of_fmap.
    unfold ratings_file.
    change (submit_rating now body user s).2
      with (add_rating now (id user) (sr_movie_id body) (sr_rating body) s).
    rewrite Hh. eexists. split; [|apply elem_of_app; right; left]. done.
Qed.

(** X22: in a store whose ratings all belong to its users, a user who has
    just been added has no history, so the recommendation endpoint
    answers with the cold-start error. *)
Theorem new_user_starts_cold `{ArgSort} (g : Globals) (name hashed : string)
    (s : Store) :
  ratings_owned s →
  let u := (add_user name hashed s).1 in
  let s' := (add_user name hashed s).2 in
  get_ratings_for_user (read_ratings s') (su_id u) = []
  ∧ get_recommendations g (read_ratings s')
      {| id := su_id u; username := su_username u |}
    = Raise (HTTPException 400
        "No ratings found. Please rate some movies first (cold start).").
Proof.
  intros Hown u s'.
  assert (get_ratings_for_user (read_ratings s') (su_id u) = []) as Hnone.
  { unfold get_ratings_for_user. change (read_ratings s') with (read_ratings s).
    destruct (filter _ (read_ratings s)) as [|r rest] eqn:E; [done|].
    assert (r ∈ filter (λ r, user_id r = su_id u) (read_ratings s)) as Hr
      by (rewrite E; left).
    apply list_elem_of_filter in Hr as [Hid Hr].
    apply Hown, list_elem_of_fmap in Hr as (v & Hv & Hin).
    apply get_next_user_id_fresh in Hin. simpl in Hid. lia. }
  split; [done|].
  unfold get_recommendations. cbv zeta.
  change (id {| id := su_id u; username := su_username u |}) with (su_id u).
  by rewrite Hnone.
Qed.

Lemma new_user_starts_cold_witness :
  get_recommendations (H := insertion_sort) twin_catalog
    (read_ratings (add_user "erin" "h" example_store).2)
    {| id := 3; username := "erin" |}
  = Raise (HTTPException 400
      "No ratings found. Please rate some movies first (cold start).").
Proof.
  apply (new_user_starts_cold (H := insertion_sort) twin_catalog "erin" "h"
           example_store).
  intros r Hr. vm_compute in Hr.
  repeat (apply elem_of_cons in Hr as [->|Hr]; [vm_compute; set_solver|]).
  by apply elem_of_nil in Hr.
Defined.

(* ===================================================================== *)
(** * Properties of registration and login *)
(* ===================================================================== *)

Section auth_facts.
Context `{AuthLibs}.

End auth_facts.

(** X23: [register] refuses a user name that is already in the store with
    an HTTP 400 and writes nothing. *)
Theorem register_taken `{AuthLibs} (salt : bcrypt_salt) (now : Z)
    (body : Credentials) (s : Store) :
  cr_username body ∈ su_username <$> read_users s →
  register salt now body s
  = (Raise (HTTPException 400 "Username already exists"), s).
Proof.
  intros Hin. unfold register.
  destruct (get_user_by_username s (cr_username body)) eqn:E; [done|].
  by apply find_username_None in E.
Qed.

Lemma register_taken_witness :
  register (H := toy_auth) "salt" 0 (mkCredentials "bob" "pw") example_store
  = (Raise (HTTPException 400 "Username already exists"), example_store).
Proof.
  apply (register_taken (H := toy_auth)). vm_compute. set_solver.
Defined.

(** X24: [register] with a free user name stores exactly one new user,
    with that name, the hash of the password and the next id, answers with
    that id and name and a bearer token for them that expires 24 hours
    after [now], and leaves the ratings alone. *)
Theorem register_fresh `{AuthLibs} (salt : bcrypt_salt) (now : Z)
    (body : Credentials) (s : Store) :
  cr_username body ∉ su_username <$> read_users s →
  let u := {| su_id := get_next_user_id s;
              su_username := cr_username body;
              hashed_password := pwd_hash salt (cr_password body) |} in
  ∃ s',
    register salt now body s
    = (Ok {| access_token :=
               jwt_encode {| tc_sub := cr_username body;
                             tc_user_id := get_next_user_id s;
                             tc_exp := (now + 86400)%Z |};
             token_type := "bearer";
             tr_user_id := get_next_user_id s;
             tr_username := cr_username body |}, s')
    ∧ read_users s' = read_users s ++ [u]
    ∧ get_user_by_username s' (cr_username body) = Some u
    ∧ read_ratings s' = read_ratings s.
Proof.
  intros Hfree u. apply find_username_None in Hfree.
  unfold register. unfold get_user_by_username at 1. rewrite Hfree.
  eexists. split; [reflexivity|]. split; [done|]. split; [|done].
  unfold get_user_by_username, add_user, read_users. simpl.
  rewrite find_username_app. unfold read_users in Hfree. rewrite Hfree.
  by rewrite bool_decide_eq_true_2.
Qed.

Ltac decide_goal :=
  match goal with
  | |- ?G => apply (bool_decide_unpack G); vm_compute; exact I
  end.

Lemma register_fresh_witness :
  ∃ s',
    register (H := toy_auth) "salt" 0 (mkCredentials "erin" "pw") example_store
    = (Ok {| access_token := "erin"; token_type := "bearer";
             tr_user_id := 3; tr_username := "erin" |}, s')
    ∧ read_users s'
      = read_users example_store ++ [mkStoredUser 3 "erin" "salt$pw"]
    ∧ get_user_by_username s' "erin" = Some (mkStoredUser 3 "erin" "salt$pw")
    ∧ read_ratings s' = read_ratings example_store.
Proof.
  apply (register_fresh (H := toy_auth) "salt" 0 (mkCredentials "erin" "pw")
           example_store).
  decide_goal.
Defined.



(** X26: [login] answers with a token only for a user of the store whose
    stored hash the password verifies against, and the answer names that
    user; an unknown user name and a password that does not verify both
    give the same HTTP 401. *)
Theorem login_sound `{AuthLibs} (now : Z) (body : Credentials) (s : Store) :
  (∀ resp, login now body s = Ok resp →
     ∃ u, u ∈ read_users s
          ∧ su_username u = cr_username body
          ∧ pwd_verify (cr_password body) (hashed_password u) = Ok true
          ∧ tr_user_id resp = su_id u
          ∧ tr_username resp = su_username u
          ∧ token_type resp = "bearer")
  ∧ (cr_username body ∉ su_username <$> read_users s →
     login now body s = Raise (HTTPException 401 "Invalid username or password"))
  ∧ (∀ u, get_user_by_username s (cr_username body) = Some u →
          pwd_verify (cr_password body) (hashed_password u) = Ok false →
          login now body s
          = Raise (HTTPException 401 "Invalid username or password")).
Proof.
  unfold login. split; [|split].
  - intros resp.
    destruct (get_user_by_username s (cr_username body)) as [u|] eqn:E;
      [|done].
    apply find_username_Some in E as [Hin Hname].
    destruct (pwd_verify _ _) as [[|]|e] eqn:Ev; simpl; [|done..].
    intros [= <-]. by exists u.
  - intros Hfree%find_username_None. unfold get_user_by_username.
    by rewrite Hfree.
  - intros u -> ->. done.
Qed.

(** X27: provided the password context verifies the hash it has just
    made, a user who registered can log in with the same credentials, and
    is answered with the same id and name. *)
Theorem register_then_login `{AuthLibs} (salt : bcrypt_salt) (now now' : Z)
    (body : Credentials) (s : Store) :
  cr_username body ∉ su_username <$> read_users s →
  pwd_verify (cr_password body) (pwd_hash salt (cr_password body)) = Ok true →
  ∃ resp resp' s',
    register salt now body s = (Ok resp, s')
    ∧ login now' body s' = Ok resp'
    ∧ tr_user_id resp' = tr_user_id resp
    ∧ tr_username resp' = tr_username resp.
Proof.
  intros Hfree Hverify. apply find_username_None in Hfree.
  unfold register. unfold get_user_by_username at 1. rewrite Hfree.
  eexists _, _, _. split; [reflexivity|].
  unfold login, get_user_by_username, add_user, read_users. simpl.
  rewrite find_username_app. unfold read_users in Hfree. rewrite Hfree.
  rewrite bool_decide_eq_true_2 by done. simpl. rewrite Hverify. simpl.
  done.
Qed.

Lemma register_then_login_witness :
  ∃ resp resp' s',
    register (H := toy_auth) "salt" 0 (mkCredentials "erin" "pw") example_store
    = (Ok resp, s')
    ∧ login (H := toy_auth) 5 (mkCredentials "erin" "pw") s' = Ok resp'
    ∧ tr_user_id resp' = tr_user_id resp
    ∧ tr_username resp' = tr_username resp.
Proof.
  apply (register_then_login (H := toy_auth) "salt" 0 5
           (mkCredentials "erin" "pw") example_store); [|reflexivity].
  decide_goal.
Defined.

(** X28: [get_current_user] returns only users of the store, and only the
    first user whose name is the ["sub"] of the decoded token; whatever
    else happens (the token does not decode, has no ["sub"], or names
    nobody) it raises the one HTTP 401 "Could not validate
    credentials". *)
Theorem get_current_user_sound `{AuthLibs} (now : Z) (token : string)
    (s : Store) :
  (∀ u, get_current_user now token s = Ok u →
        u ∈ read_users s
        ∧ jwt_decode_sub now token = Some (SubString (su_username u))
        ∧ get_user_by_username s (su_username u) = Some u)
  ∧ ((∃ u, get_current_user now token s = Ok u)
     ∨ get_current_user now token s = Raise credentials_exception).
Proof.
  unfold get_current_user.
  destruct (jwt_decode_sub now token) as [[|name|]|]; try (split; [done|by right]).
  destruct (get_user_by_username s name) as [u|] eqn:E;
    [|split; [done|by right]].
  split; [|left; by exists u].
  intros u' [= <-]. pose proof E as [Hin <-]%find_username_Some. done.
Qed.


